(** * BeetSeeker: the slskd -> betanin reconciliation loop

    A shallow embedding of [slskd.py], [betanin.py] and the main loop of
    [main.py], and the properties of the completion evaluator, of the import
    client and of the processing queue.

    Conventions of the embedding.
    - Python [str] is [string]; [str.lower] is modelled on the ASCII letters
      (bytes outside [A-Z] are left as they are).
    - A JSON object read with [.get(key, default)] is a record whose field
      holds what [.get] returns: a missing ['directory'] is the empty string,
      a missing ['files'] or ['directories'] the empty list, a missing
      ['state'] is [None].
    - A Python [dict] whose iteration order is observable is an association
      list in insertion order; a [set] is a [gset]; the [deque] is a list
      whose head is the left end.
    - HTTP is a replay model: the world holds the responses still to come and
      the requests already sent. *)

From Stdlib Require Import Ascii.
From stdpp Require Import gmap strings list.

Local Open Scope string_scope.
Local Open Scope list_scope.
Local Open Scope nat_scope.

(** ** Python string helpers *)

Module PyStr.

(** [s.replace(old, new)] for one-character [old] and [new]. *)
Fixpoint replace (old new : ascii) (s : string) : string :=
  match s with
  | EmptyString => EmptyString
  | String c s' =>
      String (if Ascii.eqb c old then new else c) (replace old new s')
  end.

(** [s.rstrip(ch)] for a one-character [ch]. *)
Fixpoint rstrip (ch : ascii) (s : string) : string :=
  match s with
  | EmptyString => EmptyString
  | String c s' =>
      match rstrip ch s' with
      | EmptyString => if Ascii.eqb c ch then EmptyString else String c EmptyString
      | r => String c r
      end
  end.

Fixpoint contains (ch : ascii) (s : string) : bool :=
  match s with
  | EmptyString => false
  | String c s' => Ascii.eqb c ch || contains ch s'
  end.

(** [s.split(sep)[-1]]: what follows the last [sep], all of [s] when there
    is none. *)
Fixpoint split_last (sep : ascii) (s : string) : string :=
  match s with
  | EmptyString => EmptyString
  | String c s' =>
      if contains sep s' then split_last sep s'
      else if Ascii.eqb c sep then s' else s
  end.

Definition lower_ascii (c : ascii) : ascii :=
  let n := N_of_ascii c in
  if ((65 <=? n) && (n <=? 90))%N then ascii_of_N (n + 32) else c.

(** [s.lower()] *)
Fixpoint lower (s : string) : string :=
  match s with
  | EmptyString => EmptyString
  | String c s' => String (lower_ascii c) (lower s')
  end.

(** [bool(s)]: a string is truthy when it is not empty. *)
Definition truthy (s : string) : bool :=
  match s with EmptyString => false | _ => true end.

(** [os.path.basename(p)] of [posixpath]: [p[p.rfind('/') + 1:]]. *)
Definition basename (p : string) : string := split_last "/" p.

End PyStr.

(** ** The download-status payload (slskd) *)

Record file_info := FileInfo {
  filename : string;
  state : option string
}.

Record directory_info := DirectoryInfo {
  directory : string;
  files : list file_info
}.

Record user_info := UserInfo {
  username : string;
  directories : list directory_info
}.

Definition SENTINEL : string := "Completed, Succeeded".

(** [file.get('state') == 'Completed, Succeeded'] *)
Definition state_is_completed (f : file_info) : bool :=
  match state f with
  | Some s => String.eqb s SENTINEL
  | None => false
  end.

(** The normalisation shared by [get_subdirectories],
    [get_completed_directories] and [is_directory_completed]:
    [dir_path.replace('\\', '/')] then [dir_path.rstrip('/').split('/')[-1]]. *)
Definition normalize (dir_path : string) : string :=
  let dir_path := PyStr.replace "\" "/" dir_path in
  PyStr.split_last "/" (PyStr.rstrip "/" dir_path).

(** ** slskd.py: the pure part *)

(** The body of [get_subdirectories] once the status has been fetched:
    the two nested loops that fill [directories]. *)
Definition subdirectories_of (download_data : list user_info) : gset string :=
  foldl (fun (acc : gset string) user =>
    foldl (fun (acc : gset string) directory_info =>
      let dir_path := directory directory_info in
      if PyStr.truthy dir_path
      then {[ normalize dir_path ]} ∪ acc
      else acc)
      acc (directories user))
    ∅ download_data.

(** [all_downloads_completed]: (all_completed, completed_files, total_files). *)
Definition all_downloads_completed (data : list user_info) : bool * nat * nat :=
  match data with
  | [] => (false, 0, 0)
  | _ =>
      let '(total_files, completed_files) :=
        foldl (fun acc user =>
          foldl (fun acc directory =>
            foldl (fun '(total_files, completed_files) file =>
              let state := default "Unknown" (state file) in
              let total_files := S total_files in
              if String.eqb state SENTINEL
              then (total_files, S completed_files)
              else (total_files, completed_files))
              acc (files directory))
            acc (directories user))
          (0, 0) data in
      ((Nat.eqb completed_files total_files) && (Nat.ltb 0 total_files),
       completed_files, total_files)
  end.

(** *** The dictionary [directories_status]

    [{dir_name: [total_files, completed_files]}], in insertion order. *)
Definition status_dict := list (string * (nat * nat)).

Fixpoint dict_get (k : string) (d : status_dict) : option (nat * nat) :=
  match d with
  | [] => None
  | (k', v) :: d' => if decide (k = k') then Some v else dict_get k d'
  end.

(** [d[k] = f(d[k])], the entry keeps its place. *)
Fixpoint dict_alter (f : nat * nat -> nat * nat) (k : string) (d : status_dict)
  : status_dict :=
  match d with
  | [] => []
  | (k', v) :: d' =>
      if decide (k = k') then (k', f v) :: d' else (k', v) :: dict_alter f k d'
  end.

(** [if k not in d: d[k] = [0, 0]] *)
Definition dict_init (k : string) (d : status_dict) : status_dict :=
  match dict_get k d with
  | Some _ => d
  | None => d ++ [(k, (0, 0))]
  end.

(** One turn of the loop over [directory.get('files', [])]. *)
Definition count_file (dir_name : string) (d : status_dict) (file : file_info)
  : status_dict :=
  let d := dict_alter (fun '(t, c) => (S t, c)) dir_name d in
  if state_is_completed file
  then dict_alter (fun '(t, c) => (t, S c)) dir_name d
  else d.

(** One turn of the loop over [user.get('directories', [])]. *)
Definition count_directory (d : status_dict) (directory_info : directory_info)
  : status_dict :=
  let dir_path := directory directory_info in
  if PyStr.truthy dir_path then
    let dir_name := normalize dir_path in
    foldl (count_file dir_name) (dict_init dir_name d) (files directory_info)
  else d.

Definition directories_status (data : list user_info) : status_dict :=
  foldl (fun d user => foldl count_directory d (directories user)) [] data.

(** The loop over [directories_status.items()]: the pair
    ([completed_directories], [in_progress_directories]). *)
Definition classify (d : status_dict) : list string * list string :=
  foldl (fun '(completed_directories, in_progress_directories) '(dir_name, (total_files, completed_files)) =>
    if (Nat.ltb 0 total_files) && (Nat.eqb completed_files total_files)
    then (completed_directories ++ [dir_name], in_progress_directories)
    else (completed_directories, in_progress_directories ++ [dir_name]))
    ([], []) d.

(** [get_completed_directories(data)] *)
Definition get_completed_directories (data : list user_info) : list string :=
  match data with
  | [] => []
  | _ => (classify (directories_status data)).1
  end.

(** The list [in_progress_directories] that [get_completed_directories]
    builds (its length is logged); [None] when the function returns before
    building it. *)
Definition in_progress_directories (data : list user_info) : option (list string) :=
  match data with
  | [] => None
  | _ => Some (classify (directories_status data)).2
  end.

(** [is_directory_completed(data, directory_name)] *)
Definition is_directory_completed (data : list user_info) (directory_name : string)
  : bool :=
  match data with
  | [] => false
  | _ =>
      let directory_name_lower := PyStr.lower directory_name in
      let '(total_files, completed_files) :=
        foldl (fun acc user =>
          foldl (fun acc directory_info =>
            let dir_path := directory directory_info in
            if PyStr.truthy dir_path then
              let dir_name := normalize dir_path in
              if String.eqb (PyStr.lower dir_name) directory_name_lower then
                foldl (fun '(total_files, completed_files) file =>
                  let total_files := S total_files in
                  if state_is_completed file
                  then (total_files, S completed_files)
                  else (total_files, completed_files))
                  acc (files directory_info)
              else acc
            else acc)
            acc (directories user))
          (0, 0) data in
      if Nat.eqb total_files 0 then false
      else Nat.eqb completed_files total_files
  end.

(** Scenario A: one peer, one directory, two files, both completed. *)
Definition albumx_done : list user_info :=
  [UserInfo "peer1"
     [DirectoryInfo "@@abc\Music\AlbumX"
        [FileInfo "01.flac" (Some SENTINEL); FileInfo "02.flac" (Some SENTINEL)]]].

(** ** The HTTP collaborators

    [requests.get] and [requests.post] are the only effects of the two
    clients.  A call records its request and takes the next scripted
    outcome: a response, or [None] when the call raises (time-out, refused
    connection, and also a script that has run out). *)

Record torrent_info := TorrentInfo {
  id : string;
  status : string;
  name : string
}.

Inductive payload :=
| JsonDownloads (users : list user_info)      (* a list of peers *)
| JsonTorrents (torrents : list torrent_info) (* {"torrents": [...]} *)
| JsonConsole (lines : list string)           (* [{"data": ...}, ...] *)
| NotJson.                                    (* [response.json()] raises *)

Record response := Response {
  status_code : nat;
  body : payload
}.

Inductive request :=
| GET (url : string) (params : list (string * string))
| POST (url : string) (data : list (string * string)).

Record world := World {
  pending : list (option response);
  sent : list request
}.

Definition M (A : Type) : Type := world -> A * world.

#[global] Instance M_ret : MRet M := fun A x w => (x, w).
#[global] Instance M_bind : MBind M :=
  fun A B f m w => let '(x, w') := m w in f x w'.

Definition http (r : request) : M (option response) :=
  fun w =>
    match pending w with
    | [] => (None, World [] (sent w ++ [r]))
    | o :: rest => (o, World rest (sent w ++ [r]))
    end.

Record config := Config {
  DEBUG : bool;
  DOWNLOADS_DIRECTORY : string;
  BETANIN_IMPORT_DIRECTORY : string;
  SLSKD_URL : string;
  SLSKD_API_KEY : string;
  BETANIN_URL : string;
  BETANIN_API_KEY : string
}.

Section Clients.

Variable cfg : config.

(** *** slskd.py: the calls to the API *)

Definition downloads_request : request :=
  GET (SLSKD_URL cfg +:+ "/api/v0/transfers/downloads") [("includeRemoved", "false")].

(** [get_download_status()].  A status other than 200, a raised exception
    and a body that does not parse all give [[]].  (A 200 body that parses
    to something else than a list of peers is outside the typed payload and
    is read as one that does not parse.) *)
Definition get_download_status : M (list user_info) :=
  response ← http downloads_request;
  match response with
  | Some response =>
      if Nat.eqb (status_code response) 200 then
        match body response with
        | JsonDownloads data => mret data
        | _ => mret []
        end
      else mret []
  | None => mret []
  end.

(** [get_subdirectories(directory)]: the argument is not used, the status
    is fetched by the function itself. *)
Definition get_subdirectories (directory : string) : M (gset string) :=
  download_data ← get_download_status;
  match download_data with
  | [] => mret ∅
  | _ => mret (subdirectories_of download_data)
  end.

(** *** betanin.py *)

Definition torrents_url : string := BETANIN_URL cfg +:+ "/api/torrents/".

Definition check_request : request :=
  GET (BETANIN_URL cfg +:+ "/api/torrents/?page=1&per_page=1") [].

Definition import_request (directory_name : string) : request :=
  POST torrents_url
    [("both", BETANIN_IMPORT_DIRECTORY cfg +:+ "/" +:+ directory_name)].

(** [import_downloads(parent_directory)] *)
Definition import_downloads (parent_directory : string) : M bool :=
  if negb (PyStr.truthy (BETANIN_API_KEY cfg)) then mret false
  else
    let directory_name := PyStr.basename (PyStr.replace "\" "/" parent_directory) in
    (* Check download status: the three values are only logged *)
    download_data ← get_download_status;
    let '(all_completed, completed_files, total_files) :=
      all_downloads_completed download_data in
    (* Check specific directory status: logged, "trying to import anyway" *)
    let dir_completed := is_directory_completed download_data directory_name in
    (* a GET first, to verify connectivity *)
    check_response ← http check_request;
    match check_response with
    | None => mret false
    | Some check_response =>
        if Nat.eqb (status_code check_response) 200 then
          (* the import request *)
          response ← http (import_request directory_name);
          match response with
          | None => mret false
          | Some response =>
              if Nat.eqb (status_code response) 200 then mret true
              else mret false
          end
        else mret false
    end.

Definition console_request (download_id : string) : request :=
  GET (BETANIN_URL cfg +:+ "/api/torrents/" +:+ download_id +:+ "/console/stdout") [].

(** [get_download_outcome(download_id)]: the console lines, [None] on any
    error. *)
Definition get_download_outcome (download_id : string) : M (option (list string)) :=
  response ← http (console_request download_id);
  match response with
  | Some response =>
      (* [raise_for_status] raises on 4xx and 5xx *)
      if (400 <=? status_code response) && (status_code response <? 600)
      then mret None
      else
        match body response with
        | JsonConsole data => mret (Some data)
        | _ => mret None
        end
  | None => mret None
  end.

Definition last_torrent_request : request :=
  GET torrents_url [("page", "1"); ("per_page", "1")].

(** [check_manual_intervention_needed()] *)
Definition check_manual_intervention_needed : M bool :=
  if negb (PyStr.truthy (BETANIN_API_KEY cfg)) then mret false
  else
    response ← http last_torrent_request;
    match response with
    | Some response =>
        if negb (Nat.eqb (status_code response) 200) then mret false
        else
          match body response with
          | JsonTorrents (t :: _) =>
              if negb (String.eqb (status t) "COMPLETED") then
                _ ← get_download_outcome (id t);
                mret true
              else mret false
          | _ => mret false
          end
    | None => mret false
    end.

End Clients.

(** ** main.py: the reconciliation loop *)

Record loop_state := LoopState {
  subdirectory_queue : list string;          (* the deque, head first *)
  previous_subdirectories : gset string;
  processed_directories : gset string;
  processing_failures : gmap string nat
}.

(** The loop [for directory in new_subdirectories], over the names in the
    order the set yields them. *)
Definition enqueue_new (completed_directories : list string)
    (processed_directories : gset string)
    (queue : list string) (new_subdirectories : list string) : list string :=
  foldl (fun queue directory =>
    if bool_decide (directory ∈ completed_directories)
       && bool_decide (directory ∉ processed_directories)
    then queue ++ [directory]
    else queue)
    queue new_subdirectories.

(** The loop [for directory in current_subdirectories]. *)
Definition enqueue_recent (completed_directories : list string)
    (processed_directories : gset string)
    (queue : list string) (current_subdirectories : list string) : list string :=
  foldl (fun queue directory =>
    if bool_decide (directory ∈ completed_directories)
       && bool_decide (directory ∉ processed_directories)
       && bool_decide (directory ∉ queue)
    then queue ++ [directory]
    else queue)
    queue current_subdirectories.

(** The two enqueue loops of one iteration. *)
Definition enqueue (completed_directories : list string)
    (current_subdirectories : gset string) (st : loop_state) : list string :=
  let new_subdirectories :=
    current_subdirectories ∖ previous_subdirectories st in
  let queue :=
    enqueue_new completed_directories (processed_directories st)
      (subdirectory_queue st) (elements new_subdirectories) in
  enqueue_recent completed_directories (processed_directories st)
    queue (elements current_subdirectories).

(** The failure bookkeeping:
    [if d in processing_failures: processing_failures[d] += 1 else: ... = 1]. *)
Definition record_failure (subdirectory : string)
    (processing_failures : gmap string nat) : gmap string nat :=
  match processing_failures !! subdirectory with
  | Some n => <[subdirectory := n + 1]> processing_failures
  | None => <[subdirectory := 1]> processing_failures
  end.

Section Loop.

Variable cfg : config.

(** [if subdirectory_queue: ...] up to [previous_subdirectories =
    current_subdirectories], on the queue the enqueue loops left.  The
    [continue] of the missing-key branch skips the update of
    [previous_subdirectories]. *)
Definition process_head (download_data : list user_info)
    (current_subdirectories : gset string) (st : loop_state) : M loop_state :=
  match subdirectory_queue st with
  | [] =>
      mret (LoopState [] current_subdirectories
              (processed_directories st) (processing_failures st))
  | subdirectory :: rest =>
      if is_directory_completed download_data subdirectory then
        if negb (PyStr.truthy (BETANIN_API_KEY cfg)) then
          (* popleft; continue *)
          mret (LoopState rest (previous_subdirectories st)
                  (processed_directories st) (processing_failures st))
        else
          success ← import_downloads cfg subdirectory;
          if (success : bool) then
            _ ← check_manual_intervention_needed cfg;
            mret (LoopState rest current_subdirectories
                    ({[ subdirectory ]} ∪ processed_directories st)
                    (processing_failures st))
          else
            let processing_failures :=
              record_failure subdirectory (processing_failures st) in
            if 3 <=? processing_failures !!! subdirectory then
              mret (LoopState rest current_subdirectories
                      (processed_directories st) processing_failures)
            else
              mret (LoopState (rest ++ [subdirectory]) current_subdirectories
                      (processed_directories st) processing_failures)
      else
        mret (LoopState (rest ++ [subdirectory]) current_subdirectories
                (processed_directories st) (processing_failures st))
  end.

(** One iteration of [while True] (the body of the [try]). *)
Definition cycle (st : loop_state) : M loop_state :=
  download_data ← get_download_status cfg;
  current_subdirectories ← get_subdirectories cfg (DOWNLOADS_DIRECTORY cfg);
  let completed_directories := get_completed_directories download_data in
  let queue := enqueue completed_directories current_subdirectories st in
  process_head download_data current_subdirectories
    (LoopState queue (previous_subdirectories st)
       (processed_directories st) (processing_failures st)).

(** The module-level code before the loop. *)
Definition startup : M loop_state :=
  download_data ← get_download_status cfg;
  all_subdirectories ← get_subdirectories cfg (DOWNLOADS_DIRECTORY cfg);
  let completed_directories := get_completed_directories download_data in
  let processed_directories : gset string := ∅ in
  let queue :=
    foldl (fun (queue : list string) (directory : string) =>
      if bool_decide (directory ∉ processed_directories)
      then queue ++ [directory] else queue)
      [] completed_directories in
  mret (LoopState queue all_subdirectories processed_directories ∅).

(** [n] iterations of the loop. *)
Fixpoint iterate (n : nat) (st : loop_state) : M loop_state :=
  match n with
  | 0 => mret st
  | S n => st ← cycle st; iterate n st
  end.

End Loop.

(** * Definitions used by the statements *)

(** ** What the specification says of the completion evaluator

    The aggregation in the specification's words: the occurrences of a
    normalised name are the directory entries, under any peer, that carry a
    path and normalise to that name; their files are put together. *)

Definition is_occurrence (name : string) (e : directory_info) : Prop :=
  directory e ≠ "" ∧ normalize (directory e) = name.

#[global] Instance is_occurrence_dec name e : Decision (is_occurrence name e).
Proof. unfold is_occurrence. apply _. Defined.

Definition occurrences (data : list user_info) (name : string) : list directory_info :=
  filter (is_occurrence name) (data ≫= directories).

Definition aggregated_files (data : list user_info) (name : string) : list file_info :=
  occurrences data name ≫= files.

Definition has_sentinel_state (f : file_info) : Prop := state f = Some SENTINEL.

#[global] Instance has_sentinel_state_dec f : Decision (has_sentinel_state f).
Proof. unfold has_sentinel_state. apply _. Defined.

Definition total_files (data : list user_info) (name : string) : nat :=
  length (aggregated_files data name).

Definition completed_files (data : list user_info) (name : string) : nat :=
  length (filter has_sentinel_state (aggregated_files data name)).

(** The same, for the case-insensitive query of [is_directory_completed]. *)
Definition matches_query (directory_name : string) (e : directory_info) : Prop :=
  directory e ≠ "" ∧ PyStr.lower (normalize (directory e)) = PyStr.lower directory_name.

#[global] Instance matches_query_dec q e : Decision (matches_query q e).
Proof. unfold matches_query. apply _. Defined.

Definition matching_files (data : list user_info) (directory_name : string)
  : list file_info :=
  filter (matches_query directory_name) (data ≫= directories) ≫= files.

(** The two counters over a list of files. *)
Definition counts (fs : list file_info) : nat * nat :=
  (length fs, length (filter has_sentinel_state fs)).

Definition add_counts (tc : nat * nat) (fs : list file_info) : nat * nat :=
  (tc.1 + (counts fs).1, tc.2 + (counts fs).2).

(** The test of the classification loop on an item of the dictionary. *)
Definition is_complete_entry (kv : string * (nat * nat)) : Prop :=
  0 < kv.2.1 ∧ kv.2.2 = kv.2.1.

#[global] Instance is_complete_entry_dec kv : Decision (is_complete_entry kv).
Proof. unfold is_complete_entry. apply _. Defined.

(** One peer, one directory entry, no file. *)
Definition empty_albumx : list user_info :=
  [UserInfo "peer1" [DirectoryInfo "AlbumX" []]].

(** The statement of C6 at one snapshot and one name. *)
Definition excluded_from_both (data : list user_info) (name : string) : Prop :=
  (name ∉ get_completed_directories data)
  ∧ (∀ l, in_progress_directories data = Some l → name ∉ l).

(** ** The replay of the HTTP calls *)

(** The outcome of the [k]-th call from now on. *)
Definition outcome (w : world) (k : nat) : option response :=
  default None (pending w !! k).

(** The world once request [r] has been made. *)
Definition after (r : request) (w : world) : world :=
  World (tail (pending w)) (sent w ++ [r]).

(** [response.status_code == 200], false when the call raised. *)
Definition is_200 (o : option response) : bool :=
  match o with
  | Some response => Nat.eqb (status_code response) 200
  | None => false
  end.

(** What [get_download_status] makes of an outcome. *)
Definition fetched (o : option response) : list user_info :=
  match o with
  | Some response =>
      if Nat.eqb (status_code response) 200 then
        match body response with
        | JsonDownloads data => data
        | _ => []
        end
      else []
  | None => []
  end.

(** ** Inputs of the examples *)

(** Scenario B: one file of two is still in progress. *)
Definition albumx_half : list user_info :=
  [UserInfo "peer1"
     [DirectoryInfo "@@abc\Music\AlbumX"
        [FileInfo "01.flac" (Some SENTINEL); FileInfo "02.flac" (Some "InProgress")]]].

Definition cfg0 : config :=
  Config false "/data/slskd/music/complete" "/downloads"
    "http://localhost:5030" "k1" "http://localhost:9393" "k2".

Definition ok_downloads (d : list user_info) : option response :=
  Some (Response 200 (JsonDownloads d)).

(** The [directory_name] of [import_downloads]. *)
Definition import_name (parent_directory : string) : string :=
  PyStr.basename (PyStr.replace "\" "/" parent_directory).

(** Scenario C: the connectivity probe answers 401. *)
Definition probe_401 : world :=
  World [ok_downloads albumx_done; Some (Response 401 NotJson)] [].


Definition cfg_no_key : config :=
  Config false "/data/slskd/music/complete" "/downloads"
    "http://localhost:5030" "k1" "http://localhost:9393" "".

(** ** Relations and conditions of the statements *)

(** Two download-status payloads that differ in file states only. *)
Definition same_file (f1 f2 : file_info) : Prop := filename f1 = filename f2.

Definition same_directory (e1 e2 : directory_info) : Prop :=
  directory e1 = directory e2 ∧ Forall2 same_file (files e1) (files e2).

Definition same_user (u1 u2 : user_info) : Prop :=
  username u1 = username u2
  ∧ Forall2 same_directory (directories u1) (directories u2).

Definition differ_only_in_states (data1 data2 : list user_info) : Prop :=
  Forall2 same_user data1 data2.

(** The condition under which the head [d] of the queue is handed to
    betanin: re-validated as complete, and the key configured. *)
Definition attempted (cfg : config) (data : list user_info) (d : string) : bool :=
  is_directory_completed data d && PyStr.truthy (BETANIN_API_KEY cfg).

(** AlbumX at the head of the queue, with two, and with one, failed
    imports on record. *)
Definition two_failures : loop_state :=
  LoopState ["AlbumX"; "AlbumY"] {[ "AlbumX" ]} ∅ {[ "AlbumX" := 2 ]}.

Definition one_failure : loop_state :=
  LoopState ["AlbumX"; "AlbumY"] {[ "AlbumX" ]} ∅ {[ "AlbumX" := 1 ]}.

(** The statement of C9 on removal, at one step: the entry of the head is
    gone once the head has been dropped after a failed import. *)
Definition entry_removed_on_abandon (cfg : config) (data : list user_info)
    (cur : gset string) (st : loop_state) (w : world) : Prop :=
  ∀ d rest,
    subdirectory_queue st = d :: rest →
    attempted cfg data d = true →
    (import_downloads cfg d w).1 = false →
    subdirectory_queue (process_head cfg data cur st w).1 = rest →
    processing_failures (process_head cfg data cur st w).1 !! d = None.

(** The answers of the two services: AlbumX is complete at startup, its
    status cannot be fetched during the first iteration, and it is complete
    again from the second iteration on; betanin accepts every import. *)
Definition vanish_and_return : list (option response) :=
  [ ok_downloads albumx_done; ok_downloads albumx_done;      (* startup *)
    None; None;                                              (* iteration 1 *)
    ok_downloads albumx_done; ok_downloads albumx_done;      (* iteration 2 *)
    ok_downloads albumx_done; Some (Response 200 (JsonTorrents []));
    Some (Response 200 NotJson); Some (Response 200 (JsonTorrents []));
    ok_downloads albumx_done; ok_downloads albumx_done;      (* iteration 3 *)
    ok_downloads albumx_done; Some (Response 200 (JsonTorrents []));
    Some (Response 200 NotJson); Some (Response 200 (JsonTorrents [])) ].

(** The state and the world after startup and [n] iterations. *)
Definition run_from_startup (n : nat) : loop_state * world :=
  (st ← startup cfg0; iterate cfg0 n st) (World vanish_and_return []).

(** The POST requests of a log. *)
Definition posts (l : list request) : list request :=
  l ≫= fun r => match r with POST _ _ => [r] | GET _ _ => [] end.

(** betanin accepts the import: the probe and the POST answer 200, and the
    list of jobs is empty. *)
Definition accepting : world :=
  World [ok_downloads albumx_done; Some (Response 200 (JsonTorrents []));
         Some (Response 200 NotJson); Some (Response 200 (JsonTorrents []))] [].

(** AlbumX stays complete and the probe answers 401 in every iteration. *)
Definition always_401 : list (option response) :=
  [ ok_downloads albumx_done; ok_downloads albumx_done;
    ok_downloads albumx_done; ok_downloads albumx_done;
    ok_downloads albumx_done; Some (Response 401 NotJson);
    ok_downloads albumx_done; ok_downloads albumx_done;
    ok_downloads albumx_done; Some (Response 401 NotJson);
    ok_downloads albumx_done; ok_downloads albumx_done;
    ok_downloads albumx_done; Some (Response 401 NotJson) ].

(** ** Definitions of the further properties *)

(** Every file of the snapshot, whatever the entry that lists it. *)
Definition all_files (data : list user_info) : list file_info :=
  (data ≫= directories) ≫= files.

(** The most recent job that betanin reports, when the listing answers 200
    with a first element. *)
Definition last_job (o : option response) : option torrent_info :=
  match o with
  | Some response =>
      if Nat.eqb (status_code response) 200 then
        match body response with
        | JsonTorrents (t :: _) => Some t
        | _ => None
        end
      else None
  | None => None
  end.


(** A directory AlbumX that is complete beside a directory albumx that is
    not. *)
Definition case_variants : list user_info :=
  [UserInfo "peer1"
     [DirectoryInfo "Music\AlbumX" [FileInfo "01.flac" (Some SENTINEL)]];
   UserInfo "peer2"
     [DirectoryInfo "music/albumx/" [FileInfo "01.flac" (Some "InProgress")]]].

(** [w'] follows [w] by the requests [l]. *)
Definition extends (w w' : world) (l : list request) : Prop :=
  sent w' = sent w ++ l.

(** * Properties *)

(** Scenario A of the specification. *)
Example scenario_A :
  elements (subdirectories_of albumx_done) = ["AlbumX"]
  ∧ get_completed_directories albumx_done = ["AlbumX"]
  ∧ is_directory_completed albumx_done "albumx" = true.
Proof. vm_compute. repeat split. Qed.

(** ** Lemmas on the helpers *)

Lemma truthy_true s : PyStr.truthy s = true ↔ s ≠ "".
Proof. destruct s; simpl; split; intros; congruence. Qed.

Lemma truthy_false s : PyStr.truthy s = false ↔ s = "".
Proof. destruct s; simpl; split; intros; congruence. Qed.

Lemma state_is_completed_true f :
  state_is_completed f = true ↔ has_sentinel_state f.
Proof.
  unfold state_is_completed, has_sentinel_state.
  destruct (state f) as [s|]; [|split; intros; congruence].
  rewrite String.eqb_eq. split; intros; congruence.
Qed.

Lemma foldl_bind {A B C} (g : A -> C -> A) (f : B -> list C) (a : A) (l : list B) :
  foldl (fun a b => foldl g a (f b)) a l = foldl g a (l ≫= f).
Proof.
  revert a. induction l as [|b l IH]; intros a; [reflexivity|].
  rewrite bind_cons, foldl_app. apply IH.
Qed.

Lemma add_counts_nil tc : add_counts tc [] = tc.
Proof. destruct tc. unfold add_counts. simpl. f_equal; lia. Qed.

Lemma add_counts_app tc fs1 fs2 :
  add_counts (add_counts tc fs1) fs2 = add_counts tc (fs1 ++ fs2).
Proof.
  destruct tc. unfold add_counts, counts. simpl.
  rewrite filter_app, !length_app. f_equal; lia.
Qed.

Lemma counts_le fs : (counts fs).2 ≤ (counts fs).1.
Proof. unfold counts. simpl. apply length_filter. Qed.

Lemma counts_all fs :
  (counts fs).2 = (counts fs).1 ↔ Forall has_sentinel_state fs.
Proof.
  unfold counts. simpl. induction fs as [|f fs IH]; simpl.
  - split; [constructor|reflexivity].
  - rewrite filter_cons. destruct (decide (has_sentinel_state f)) as [Hf|Hf]; simpl.
    + rewrite Forall_cons. split.
      * intros H. split; [exact Hf|]. apply IH. lia.
      * intros [_ H]. f_equal. apply IH, H.
    + split.
      * intros H. pose proof (length_filter has_sentinel_state fs). lia.
      * intros H. apply Forall_cons in H as [H _]. contradiction.
Qed.

(** The loop over the files with two local counters, as in
    [is_directory_completed] and [all_downloads_completed]. *)
Lemma foldl_counters tc fs :
  foldl (fun '(total_files, completed_files) file =>
    let total_files := S total_files in
    if state_is_completed file
    then (total_files, S completed_files)
    else (total_files, completed_files)) tc fs = add_counts tc fs.
Proof.
  revert tc. induction fs as [|f fs IH]; intros [t c].
  - rewrite add_counts_nil. reflexivity.
  - simpl foldl. change (f :: fs) with ([f] ++ fs).
    rewrite <- add_counts_app, <- IH. f_equal.
    unfold add_counts, counts. simpl. rewrite filter_cons, filter_nil.
    destruct (state_is_completed f) eqn:E.
    + apply state_is_completed_true in E. rewrite decide_True by exact E.
      simpl. f_equal; lia.
    + rewrite decide_False; [simpl; f_equal; lia|].
      intros H. apply state_is_completed_true in H. congruence.
Qed.

(** ** The dictionary [directories_status] *)

Lemma dict_get_alter f k k' d :
  dict_get k' (dict_alter f k d)
  = if decide (k' = k) then f <$> dict_get k' d else dict_get k' d.
Proof.
  induction d as [|[k0 v] d IH]; simpl.
  - destruct (decide (k' = k)); reflexivity.
  - destruct (decide (k = k0)) as [->|Hk]; simpl.
    + destruct (decide (k' = k0)); reflexivity.
    + rewrite IH. destruct (decide (k' = k0)) as [->|]; [|reflexivity].
      rewrite decide_False by congruence. reflexivity.
Qed.

Lemma dict_get_app k d1 d2 :
  dict_get k (d1 ++ d2)
  = match dict_get k d1 with Some v => Some v | None => dict_get k d2 end.
Proof.
  induction d1 as [|[k0 v] d1 IH]; simpl; [reflexivity|].
  destruct (decide (k = k0)); [reflexivity|apply IH].
Qed.

Lemma dict_get_init k name d :
  dict_get k (dict_init name d)
  = if decide (k = name) then Some (default (0, 0) (dict_get k d))
    else dict_get k d.
Proof.
  unfold dict_init. destruct (decide (k = name)) as [->|Hk].
  - destruct (dict_get name d) as [v|] eqn:E; simpl.
    + rewrite E. reflexivity.
    + rewrite dict_get_app, E. simpl. rewrite decide_True by reflexivity.
      reflexivity.
  - destruct (dict_get name d); [reflexivity|].
    rewrite dict_get_app. destruct (dict_get k d); [reflexivity|].
    simpl. rewrite decide_False by exact Hk. reflexivity.
Qed.

Lemma dict_get_count_file k name d f :
  dict_get k (count_file name d f)
  = if decide (k = name) then (fun tc => add_counts tc [f]) <$> dict_get k d
    else dict_get k d.
Proof.
  unfold count_file.
  destruct (state_is_completed f) eqn:E; rewrite ?dict_get_alter;
    destruct (decide (k = name)); try reflexivity;
    destruct (dict_get k d) as [[t c]|]; simpl; try reflexivity;
    unfold add_counts, counts; simpl; rewrite filter_cons, filter_nil.
  - apply state_is_completed_true in E. rewrite decide_True by exact E.
    simpl. do 2 f_equal; lia.
  - rewrite decide_False; [simpl; do 2 f_equal; lia|].
    intros H. apply state_is_completed_true in H. congruence.
Qed.

Lemma dict_get_count_files k name fs d :
  dict_get k (foldl (count_file name) d fs)
  = if decide (k = name) then (fun tc => add_counts tc fs) <$> dict_get k d
    else dict_get k d.
Proof.
  revert d. induction fs as [|f fs IH]; intros d; simpl.
  - destruct (decide (k = name)); [|reflexivity].
    destruct (dict_get k d); simpl; [rewrite add_counts_nil|]; reflexivity.
  - rewrite IH, dict_get_count_file.
    destruct (decide (k = name)); [|reflexivity].
    destruct (dict_get k d); simpl; [|reflexivity].
    rewrite add_counts_app. reflexivity.
Qed.

Lemma dict_get_count_directory k d e :
  dict_get k (count_directory d e)
  = if decide (is_occurrence k e)
    then Some (add_counts (default (0, 0) (dict_get k d)) (files e))
    else dict_get k d.
Proof.
  unfold count_directory, is_occurrence.
  destruct (PyStr.truthy (directory e)) eqn:E.
  - apply truthy_true in E. rewrite dict_get_count_files, dict_get_init.
    destruct (decide (k = normalize (directory e))) as [->|Hk].
    + rewrite decide_True by (split; [exact E|reflexivity]). reflexivity.
    + rewrite decide_False; [reflexivity|]. intros [_ H]. congruence.
  - apply truthy_false in E. rewrite decide_False; [reflexivity|].
    intros [H _]. contradiction.
Qed.

Lemma dict_get_count_directories k es d :
  dict_get k (foldl count_directory d es)
  = match filter (is_occurrence k) es with
    | [] => dict_get k d
    | occ => Some (add_counts (default (0, 0) (dict_get k d)) (occ ≫= files))
    end.
Proof.
  revert d. induction es as [|e es IH]; intros d; [reflexivity|].
  simpl foldl. rewrite IH, filter_cons, dict_get_count_directory.
  destruct (decide (is_occurrence k e)) as [He|He].
  - rewrite bind_cons, <- add_counts_app. simpl.
    destruct (filter (is_occurrence k) es); [|reflexivity].
    simpl. rewrite add_counts_nil. reflexivity.
  - reflexivity.
Qed.

(** What [directories_status] holds for a name: nothing when the name has no
    occurrence, its two aggregated counters otherwise. *)
Lemma directories_status_get data name :
  dict_get name (directories_status data)
  = match occurrences data name with
    | [] => None
    | _ => Some (total_files data name, completed_files data name)
    end.
Proof.
  unfold directories_status. rewrite foldl_bind, dict_get_count_directories.
  unfold total_files, completed_files, aggregated_files, occurrences.
  destruct (filter _ _); reflexivity.
Qed.

(** The keys of the dictionary are pairwise distinct. *)
Lemma dict_get_None k d : dict_get k d = None ↔ k ∉ d.*1.
Proof.
  induction d as [|[k0 v] d IH]; simpl.
  - split; [intros _; apply not_elem_of_nil|reflexivity].
  - rewrite not_elem_of_cons. destruct (decide (k = k0)) as [->|Hk].
    + split; [discriminate|intros [H _]; contradiction].
    + rewrite IH. tauto.
Qed.

Lemma dict_alter_keys f k d : (dict_alter f k d).*1 = d.*1.
Proof.
  induction d as [|[k0 v] d IH]; simpl; [reflexivity|].
  destruct (decide (k = k0)); simpl; [reflexivity|]. f_equal. exact IH.
Qed.

Lemma dict_init_keys_NoDup k d : NoDup d.*1 → NoDup (dict_init k d).*1.
Proof.
  intros Hd. unfold dict_init. destruct (dict_get k d) eqn:E; [exact Hd|].
  rewrite fmap_app. simpl. apply NoDup_app. split; [exact Hd|]. split.
  - intros x Hx Hx'. apply list_elem_of_singleton in Hx' as ->.
    apply dict_get_None in E. contradiction.
  - apply NoDup_singleton.
Qed.

Lemma count_file_keys name d f : (count_file name d f).*1 = d.*1.
Proof.
  unfold count_file. destruct (state_is_completed f);
    rewrite ?dict_alter_keys; reflexivity.
Qed.

Lemma count_files_keys name fs d : (foldl (count_file name) d fs).*1 = d.*1.
Proof.
  revert d. induction fs as [|f fs IH]; intros d; simpl; [reflexivity|].
  rewrite IH. apply count_file_keys.
Qed.

Lemma count_directory_NoDup d e : NoDup d.*1 → NoDup (count_directory d e).*1.
Proof.
  intros Hd. unfold count_directory.
  destruct (PyStr.truthy (directory e)); [|exact Hd].
  rewrite count_files_keys. apply dict_init_keys_NoDup, Hd.
Qed.

Lemma directories_status_NoDup data : NoDup (directories_status data).*1.
Proof.
  unfold directories_status. rewrite foldl_bind.
  assert (H : NoDup (@nil (string * (nat * nat))).*1) by constructor.
  revert H. generalize (@nil (string * (nat * nat))).
  induction (data ≫= directories) as [|e es IH]; intros d Hd; simpl; [exact Hd|].
  apply IH, count_directory_NoDup, Hd.
Qed.

Lemma elem_of_dict k v d : NoDup d.*1 → (k, v) ∈ d ↔ dict_get k d = Some v.
Proof.
  induction d as [|[k0 v0] d IH]; simpl; intros Hd.
  - split; [intros H; inversion H|discriminate].
  - apply NoDup_cons in Hd as [Hk0 Hd]. rewrite elem_of_cons, (IH Hd).
    destruct (decide (k = k0)) as [->|Hk].
    + split.
      * intros [H|H]; [congruence|].
        apply dict_get_None in Hk0. congruence.
      * intros H. left. congruence.
    + split; [intros [H|H]; [congruence|exact H]|intros H; right; exact H].
Qed.

(** ** The classification *)

Lemma classify_from acc d :
  foldl (fun '(completed_directories, in_progress_directories) '(dir_name, (total_files, completed_files)) =>
    if (0 <? total_files) && (completed_files =? total_files)
    then (completed_directories ++ [dir_name], in_progress_directories)
    else (completed_directories, in_progress_directories ++ [dir_name]))
    acc d
  = (acc.1 ++ (filter is_complete_entry d).*1,
     acc.2 ++ (filter (fun kv => ¬ is_complete_entry kv) d).*1).
Proof.
  revert acc. induction d as [|[k [t c]] d IH]; intros [a b]; simpl.
  - rewrite !app_nil_r. reflexivity.
  - rewrite IH, !filter_cons.
    assert (Hiff : is_complete_entry (k, (t, c)) ↔ 0 < t ∧ c = t) by reflexivity.
    destruct (Nat.ltb_spec 0 t) as [Et|Et];
      destruct (Nat.eqb_spec c t) as [Ec|Ec]; simpl;
      destruct (decide (is_complete_entry (k, (t, c)))) as [Hc|Hc];
      destruct (decide (¬ is_complete_entry (k, (t, c)))) as [Hn|Hn];
      simpl; rewrite <- ?app_assoc; try reflexivity;
      exfalso; rewrite Hiff in Hc, Hn; lia.
Qed.

Lemma elem_of_classify_completed k d :
  NoDup d.*1 →
  k ∈ (classify d).1 ↔ ∃ v, dict_get k d = Some v ∧ is_complete_entry (k, v).
Proof.
  intros Hd. unfold classify. rewrite classify_from. simpl.
  rewrite list_elem_of_fmap. split.
  - intros [[k' v] [-> H]]. apply list_elem_of_filter in H as [H1 H2].
    exists v. split; [apply elem_of_dict; assumption|exact H1].
  - intros [v [H1 H2]]. exists (k, v). split; [reflexivity|].
    apply list_elem_of_filter. split; [exact H2|]. apply elem_of_dict; assumption.
Qed.

Lemma elem_of_classify_in_progress k d :
  NoDup d.*1 →
  k ∈ (classify d).2 ↔ ∃ v, dict_get k d = Some v ∧ ¬ is_complete_entry (k, v).
Proof.
  intros Hd. unfold classify. rewrite classify_from. simpl.
  rewrite list_elem_of_fmap. split.
  - intros [[k' v] [-> H]]. apply list_elem_of_filter in H as [H1 H2].
    exists v. split; [apply elem_of_dict; assumption|exact H1].
  - intros [v [H1 H2]]. exists (k, v). split; [reflexivity|].
    apply list_elem_of_filter. split; [exact H2|]. apply elem_of_dict; assumption.
Qed.

Lemma occurrences_nil name : occurrences [] name = [].
Proof. reflexivity. Qed.

Lemma total_files_no_occurrence data name :
  occurrences data name = [] → total_files data name = 0.
Proof. unfold total_files, aggregated_files. intros ->. reflexivity. Qed.

(** C3.  [get_completed_directories] lists a name exactly when its
    aggregated counters, summed over every occurrence of the normalised name
    under any peer, satisfy [total_files > 0] and
    [completed_files = total_files]; a file is counted as completed exactly
    when its state is the string ["Completed, Succeeded"]. *)
Theorem get_completed_directories_spec (data : list user_info) (name : string) :
  name ∈ get_completed_directories data
  ↔ 0 < total_files data name ∧ completed_files data name = total_files data name.
Proof.
  destruct data as [|u data'] eqn:Edata.
  - simpl. rewrite elem_of_nil. unfold total_files, aggregated_files. simpl.
    split; [tauto|intros [H _]; lia].
  - rewrite <- Edata. unfold get_completed_directories.
    replace (match data with [] => [] | _ => (classify (directories_status data)).1 end)
      with (classify (directories_status data)).1 by (rewrite Edata; reflexivity).
    rewrite elem_of_classify_completed by apply directories_status_NoDup.
    rewrite directories_status_get. unfold is_complete_entry. simpl.
    destruct (occurrences data name) eqn:Eo.
    + rewrite (total_files_no_occurrence _ _ Eo).
      split; [intros [v [H _]]; discriminate|intros [H _]; lia].
    + split.
      * intros [v [H1 H2]]. injection H1 as <-. exact H2.
      * intros H. eexists. split; [reflexivity|exact H].
Qed.

(** The name has an entry in the dictionary as soon as it has an occurrence,
    whatever the number of its files. *)
Lemma in_progress_spec (data : list user_info) (name : string) (l : list string) :
  in_progress_directories data = Some l →
  (name ∈ l ↔
   occurrences data name ≠ []
   ∧ ¬ (0 < total_files data name ∧ completed_files data name = total_files data name)).
Proof.
  unfold in_progress_directories. destruct data as [|u data'] eqn:Edata;
    [discriminate|]. rewrite <- Edata. intros [= <-].
  rewrite elem_of_classify_in_progress by apply directories_status_NoDup.
  rewrite directories_status_get. destruct (occurrences data name) eqn:Eo.
  - split; [intros [v [H _]]; discriminate|intros [H _]; congruence].
  - split.
    + intros [v [H1 H2]]. injection H1 as <-. split; [discriminate|exact H2].
    + intros [_ H]. eexists. split; [reflexivity|exact H].
Qed.

(** C6, counterexample.  A directory entry without files has an aggregated
    file count of zero and is appended to [in_progress_directories]. *)
Lemma zero_files_counterexample :
  total_files empty_albumx "AlbumX" = 0
  ∧ in_progress_directories empty_albumx = Some ["AlbumX"]
  ∧ ¬ excluded_from_both empty_albumx "AlbumX".
Proof.
  split; [reflexivity|]. split; [reflexivity|].
  intros [_ H]. apply (H ["AlbumX"]); [reflexivity|]. apply list_elem_of_here.
Qed.

(** C6, amended.  A directory of the snapshot whose aggregated file count is
    zero is excluded from the completed classification and is put in the
    in-progress classification. *)
Theorem zero_files_classification (data : list user_info) (name : string) :
  occurrences data name ≠ [] →
  total_files data name = 0 →
  (name ∉ get_completed_directories data)
  ∧ (∃ l, in_progress_directories data = Some l ∧ name ∈ l).
Proof.
  intros Hocc Hzero. destruct data as [|u data']; [contradiction|]. split.
  - intros Hin. change (name ∈ (classify (directories_status (u :: data'))).1) in Hin.
    apply elem_of_classify_completed in Hin; [|apply directories_status_NoDup].
    destruct Hin as [v [Hv [Hpos _]]]. rewrite directories_status_get in Hv.
    destruct (occurrences (u :: data') name); [contradiction|].
    injection Hv as <-. simpl in Hpos. lia.
  - eexists. split; [reflexivity|].
    apply (in_progress_spec (u :: data') name _ eq_refl).
    split; [exact Hocc|lia].
Qed.

Lemma zero_files_classification_witness :
  occurrences empty_albumx "AlbumX" ≠ []
  ∧ total_files empty_albumx "AlbumX" = 0
  ∧ (("AlbumX" ∉ get_completed_directories empty_albumx)
     ∧ (∃ l, in_progress_directories empty_albumx = Some l ∧ "AlbumX" ∈ l)).
Proof.
  assert (H1 : occurrences empty_albumx "AlbumX" ≠ []) by (vm_compute; discriminate).
  assert (H2 : total_files empty_albumx "AlbumX" = 0) by reflexivity.
  split; [exact H1|]. split; [exact H2|].
  exact (zero_files_classification empty_albumx "AlbumX" H1 H2).
Defined.

(** ** [is_directory_completed] *)

Lemma matching_counters q acc es :
  foldl (fun acc directory_info =>
    let dir_path := directory directory_info in
    if PyStr.truthy dir_path then
      let dir_name := normalize dir_path in
      if String.eqb (PyStr.lower dir_name) (PyStr.lower q) then
        foldl (fun '(total_files, completed_files) file =>
          let total_files := S total_files in
          if state_is_completed file
          then (total_files, S completed_files)
          else (total_files, completed_files))
          acc (files directory_info)
      else acc
    else acc) acc es
  = add_counts acc (filter (matches_query q) es ≫= files).
Proof.
  revert acc. induction es as [|e es IH]; intros acc.
  - simpl. rewrite add_counts_nil. reflexivity.
  - simpl foldl. rewrite IH, filter_cons. unfold matches_query at 2.
    destruct (PyStr.truthy (directory e)) eqn:Et.
    + apply truthy_true in Et.
      destruct (String.eqb_spec (PyStr.lower (normalize (directory e))) (PyStr.lower q))
        as [El|El].
      * rewrite decide_True by (split; assumption).
        rewrite bind_cons, <- add_counts_app, foldl_counters. reflexivity.
      * rewrite decide_False; [reflexivity|]. intros [_ H]. contradiction.
    + apply truthy_false in Et. rewrite decide_False; [reflexivity|].
      intros [H _]. contradiction.
Qed.

Lemma is_directory_completed_counts data q :
  is_directory_completed data q
  = let tc := counts (matching_files data q) in
    if Nat.eqb tc.1 0 then false else Nat.eqb tc.2 tc.1.
Proof.
  destruct data as [|u data']; [reflexivity|].
  unfold is_directory_completed. cbv iota.
  rewrite foldl_bind, matching_counters. unfold matching_files, add_counts.
  reflexivity.
Qed.



(** ** The clients and the world *)

Lemma http_run r w : http r w = (outcome w 0, after r w).
Proof. unfold http, outcome, after. destruct (pending w); reflexivity. Qed.

Lemma outcome_after r w k : outcome (after r w) k = outcome w (S k).
Proof. unfold outcome, after. simpl. destruct (pending w); reflexivity. Qed.

Lemma sent_after r w : sent (after r w) = sent w ++ [r].
Proof. reflexivity. Qed.

Lemma bind_run {A B} (m : M A) (f : A -> M B) w :
  (m ≫= f) w = f (m w).1 (m w).2.
Proof. unfold mbind, M_bind. destruct (m w). reflexivity. Qed.

Lemma get_download_status_run cfg w :
  get_download_status cfg w
  = (fetched (outcome w 0), after (downloads_request cfg) w).
Proof.
  unfold get_download_status. rewrite bind_run, http_run. simpl.
  destruct (outcome w 0) as [r|]; [|reflexivity]. simpl.
  destruct (status_code r =? 200); [|reflexivity].
  destruct (body r); reflexivity.
Qed.

Lemma subdirectories_of_nil : subdirectories_of [] = ∅.
Proof. reflexivity. Qed.

Lemma get_subdirectories_run cfg dir w :
  get_subdirectories cfg dir w
  = (subdirectories_of (fetched (outcome w 0)), after (downloads_request cfg) w).
Proof.
  unfold get_subdirectories. rewrite bind_run, get_download_status_run. simpl.
  destruct (fetched (outcome w 0)); reflexivity.
Qed.

(** C7, counterexample.  Two calls of [get_subdirectories] with the same
    argument return different sets: the function has no snapshot argument,
    each call fetches the status again. *)
Lemma get_subdirectories_twice_differ :
  let w := World [ok_downloads albumx_done; ok_downloads []] [] in
  let r1 := get_subdirectories cfg0 (DOWNLOADS_DIRECTORY cfg0) w in
  let r2 := get_subdirectories cfg0 (DOWNLOADS_DIRECTORY cfg0) r1.2 in
  r1.1 ≠ r2.1.
Proof.
  intros w r1 r2 H. assert (E : elements r1.1 = elements r2.1) by (rewrite H; reflexivity).
  vm_compute in E. discriminate.
Qed.

(** C7, amended.  [get_subdirectories] ignores its argument, makes the one
    request of [get_download_status] and returns [subdirectories_of] of the
    data fetched, a function of these data alone; [get_completed_directories]
    is a function of its argument [data], which lists no name twice. *)
Theorem get_subdirectories_of_fetched (cfg : config) (dir : string) (w : world) :
  get_subdirectories cfg dir w
  = (subdirectories_of (get_download_status cfg w).1, (get_download_status cfg w).2)
  ∧ ∀ data, NoDup (get_completed_directories data).
Proof.
  split.
  - rewrite get_subdirectories_run, get_download_status_run. reflexivity.
  - intros [|u data]; [constructor|].
    unfold get_completed_directories, classify. rewrite classify_from. simpl.
    pose proof (directories_status_NoDup (u :: data)) as Hd.
    revert Hd. generalize (directories_status (u :: data)). intros d Hd.
    induction d as [|[k v] d IH]; [constructor|].
    simpl in Hd. apply NoDup_cons in Hd as [Hk Hd]. rewrite filter_cons.
    destruct (decide (is_complete_entry (k, v))); [|apply IH, Hd].
    simpl. apply NoDup_cons. split; [|apply IH, Hd].
    intros Hin. apply Hk. apply list_elem_of_fmap in Hin as [[k' v'] [-> Hin]].
    apply list_elem_of_filter in Hin as [_ Hin].
    apply list_elem_of_fmap. exists (k', v'). split; [reflexivity|exact Hin].
Qed.

(** ** [import_downloads] *)

Lemma import_downloads_no_key cfg d w :
  PyStr.truthy (BETANIN_API_KEY cfg) = false →
  import_downloads cfg d w = (false, w).
Proof. intros H. unfold import_downloads. rewrite H. reflexivity. Qed.

Lemma import_downloads_run cfg d w :
  PyStr.truthy (BETANIN_API_KEY cfg) = true →
  import_downloads cfg d w
  = let w2 := after (check_request cfg) (after (downloads_request cfg) w) in
    if is_200 (outcome w 1)
    then (is_200 (outcome w 2), after (import_request cfg (import_name d)) w2)
    else (false, w2).
Proof.
  intros H. unfold import_downloads. rewrite H. cbn [negb]. cbv beta iota zeta.
  rewrite bind_run, get_download_status_run. cbn [fst snd].
  destruct (all_downloads_completed (fetched (outcome w 0))) as [[a c] t].
  rewrite bind_run, http_run, outcome_after. cbn [fst snd].
  destruct (outcome w 1) as [probe|] eqn:E1; cbn [is_200]; [|reflexivity].
  destruct (status_code probe =? 200); [|reflexivity].
  rewrite bind_run, http_run, !outcome_after. cbn [fst snd].
  fold (import_name d).
  destruct (outcome w 2) as [post|]; cbn [is_200]; [|reflexivity].
  destruct (status_code post =? 200); reflexivity.
Qed.



(** The answer to the status request that [import_downloads] makes does not
    reach its result, nor the requests it sends. *)
Lemma import_downloads_ignores_status cfg d o1 o2 rest s :
  (import_downloads cfg d (World (o1 :: rest) s)).1
  = (import_downloads cfg d (World (o2 :: rest) s)).1
  ∧ sent (import_downloads cfg d (World (o1 :: rest) s)).2
    = sent (import_downloads cfg d (World (o2 :: rest) s)).2.
Proof.
  destruct (PyStr.truthy (BETANIN_API_KEY cfg)) eqn:Hkey.
  - rewrite !(import_downloads_run _ _ _ Hkey). split; reflexivity.
  - rewrite !(import_downloads_no_key _ _ _ Hkey). split; reflexivity.
Qed.

(** C10.  For two download-status answers that differ in file states only,
    [import_downloads] returns the same value and sends the same requests:
    the completion re-check is only logged.  With a key and a probe that
    answers 200 the directory is POSTed, whatever the status says of it. *)
Theorem import_recheck_is_log_only (cfg : config) (d : string)
    (data1 data2 : list user_info) (rest : list (option response))
    (s : list request) :
  differ_only_in_states data1 data2 →
  let r1 := import_downloads cfg d (World (ok_downloads data1 :: rest) s) in
  let r2 := import_downloads cfg d (World (ok_downloads data2 :: rest) s) in
  r1.1 = r2.1
  ∧ sent r1.2 = sent r2.2
  ∧ (PyStr.truthy (BETANIN_API_KEY cfg) = true →
     is_200 (default None (rest !! 0)) = true →
     r1.1 = is_200 (default None (rest !! 1))
     ∧ import_request cfg (import_name d) ∈ sent r1.2).
Proof.
  intros _ r1 r2.
  destruct (import_downloads_ignores_status cfg d (ok_downloads data1)
              (ok_downloads data2) rest s) as [H1 H2].
  split; [exact H1|]. split; [exact H2|].
  intros Hkey Hprobe. subst r1.
  rewrite (import_downloads_run _ _ _ Hkey).
  change (outcome (World (ok_downloads data1 :: rest) s) 1)
    with (default None (rest !! 0)).
  change (outcome (World (ok_downloads data1 :: rest) s) 2)
    with (default None (rest !! 1)).
  rewrite Hprobe. cbn [fst snd]. split; [reflexivity|].
  rewrite sent_after. apply elem_of_app. right. apply list_elem_of_here.
Qed.

Lemma import_recheck_is_log_only_witness :
  differ_only_in_states albumx_done albumx_half
  ∧ is_directory_completed albumx_done "AlbumX" = true
  ∧ is_directory_completed albumx_half "AlbumX" = false
  ∧ let rest := [Some (Response 200 (JsonTorrents [])); Some (Response 200 NotJson)] in
    let r1 := import_downloads cfg0 "AlbumX" (World (ok_downloads albumx_done :: rest) []) in
    let r2 := import_downloads cfg0 "AlbumX" (World (ok_downloads albumx_half :: rest) []) in
    r1.1 = r2.1 ∧ sent r1.2 = sent r2.2
    ∧ r2.1 = true ∧ import_request cfg0 "AlbumX" ∈ sent r2.2.
Proof.
  assert (Hd : differ_only_in_states albumx_done albumx_half).
  { unfold differ_only_in_states, albumx_done, albumx_half.
    repeat constructor. }
  split; [exact Hd|]. split; [reflexivity|]. split; [reflexivity|].
  cbv zeta.
  pose proof (import_recheck_is_log_only cfg0 "AlbumX" albumx_done albumx_half
    [Some (Response 200 (JsonTorrents [])); Some (Response 200 NotJson)] [] Hd)
    as H.
  cbv zeta in H. destruct H as [H1 [H2 H3]].
  split; [exact H1|]. split; [exact H2|].
  destruct (H3 eq_refl eq_refl) as [H4 H5].
  split.
  - exact (eq_trans (eq_sym H1) H4).
  - rewrite <- H2. exact H5.
Defined.

(** ** The reconciliation loop *)

Lemma record_failure_lookup d (m : gmap string nat) :
  record_failure d m !! d = Some (S (default 0 (m !! d))).
Proof.
  unfold record_failure. destruct (m !! d) as [n|]; rewrite lookup_insert_eq; simpl.
  - f_equal. lia.
  - reflexivity.
Qed.

Lemma record_failure_lookup_ne d k (m : gmap string nat) :
  d ≠ k → record_failure d m !! k = m !! k.
Proof.
  intros H. unfold record_failure.
  destruct (m !! d); rewrite lookup_insert_ne by exact H; reflexivity.
Qed.

Lemma record_failure_total d (m : gmap string nat) :
  record_failure d m !!! d = S (default 0 (m !! d)).
Proof. rewrite lookup_total_alt, record_failure_lookup. reflexivity. Qed.

Lemma record_failure_grows d k c (m : gmap string nat) :
  m !! k = Some c → ∃ c', record_failure d m !! k = Some c' ∧ c ≤ c'.
Proof.
  intros H. destruct (decide (d = k)) as [->|Hne].
  - rewrite record_failure_lookup, H. simpl. eexists. split; [reflexivity|lia].
  - rewrite record_failure_lookup_ne by exact Hne. exists c. split; [exact H|lia].
Qed.

(** What the two enqueue loops append. *)
Lemma enqueue_new_cons completed processed queue d new :
  enqueue_new completed processed queue (d :: new)
  = enqueue_new completed processed
      (if bool_decide (d ∈ completed) && bool_decide (d ∉ processed)
       then queue ++ [d] else queue) new.
Proof. reflexivity. Qed.

Lemma enqueue_recent_cons completed processed queue d current :
  enqueue_recent completed processed queue (d :: current)
  = enqueue_recent completed processed
      (if bool_decide (d ∈ completed) && bool_decide (d ∉ processed)
          && bool_decide (d ∉ queue)
       then queue ++ [d] else queue) current.
Proof. reflexivity. Qed.

Lemma enqueue_new_appends completed processed new queue :
  ∃ added, enqueue_new completed processed queue new = queue ++ added
    ∧ ∀ x, x ∈ added → x ∈ completed ∧ (x ∉ processed) ∧ x ∈ new.
Proof.
  revert queue. induction new as [|d new IH]; intros queue.
  - exists []. split; [symmetry; apply app_nil_r|]. intros x Hx. inversion Hx.
  - rewrite enqueue_new_cons.
    destruct (bool_decide (d ∈ completed) && bool_decide (d ∉ processed)) eqn:E.
    + apply andb_true_iff in E as [E1 E2].
      apply bool_decide_eq_true in E1. apply bool_decide_eq_true in E2.
      destruct (IH (queue ++ [d])) as [added [Heq Hadded]].
      exists (d :: added). split.
      * rewrite Heq, <- app_assoc. reflexivity.
      * intros x Hx. apply elem_of_cons in Hx as [->|Hx].
        -- split; [exact E1|]. split; [exact E2|apply list_elem_of_here].
        -- destruct (Hadded x Hx) as [H1 [H2 H3]].
           split; [exact H1|]. split; [exact H2|]. apply list_elem_of_further, H3.
    + destruct (IH queue) as [added [Heq Hadded]]. exists added. split.
      * exact Heq.
      * intros x Hx. destruct (Hadded x Hx) as [H1 [H2 H3]].
        split; [exact H1|]. split; [exact H2|]. apply list_elem_of_further, H3.
Qed.

Lemma enqueue_recent_appends completed processed current queue :
  ∃ added, enqueue_recent completed processed queue current = queue ++ added
    ∧ (∀ x, x ∈ added → x ∈ completed ∧ (x ∉ processed) ∧ (x ∉ queue))
    ∧ NoDup added.
Proof.
  revert queue. induction current as [|d current IH]; intros queue.
  - exists []. split; [symmetry; apply app_nil_r|]. split; [|constructor].
    intros x Hx. inversion Hx.
  - rewrite enqueue_recent_cons.
    destruct (bool_decide (d ∈ completed) && bool_decide (d ∉ processed)
              && bool_decide (d ∉ queue)) eqn:E.
    + apply andb_true_iff in E as [E E3]. apply andb_true_iff in E as [E1 E2].
      apply bool_decide_eq_true in E1. apply bool_decide_eq_true in E2.
      apply bool_decide_eq_true in E3.
      destruct (IH (queue ++ [d])) as [added [Heq [Hadded Hnd]]].
      exists (d :: added). split; [|split].
      * rewrite Heq, <- app_assoc. reflexivity.
      * intros x Hx. apply elem_of_cons in Hx as [->|Hx].
        -- split; [exact E1|]. split; [exact E2|exact E3].
        -- destruct (Hadded x Hx) as [H1 [H2 H3]].
           split; [exact H1|]. split; [exact H2|].
           intros Hq. apply H3, elem_of_app. left. exact Hq.
      * apply NoDup_cons. split; [|exact Hnd].
        intros Hd. destruct (Hadded d Hd) as [_ [_ H3]].
        apply H3, elem_of_app. right. apply list_elem_of_here.
    + destruct (IH queue) as [added [Heq Hadded]]. exists added.
      split; [exact Heq|exact Hadded].
Qed.

(** The loop over [current_subdirectories], which tests
    [directory not in subdirectory_queue], keeps a queue free of
    duplicates. *)
Lemma enqueue_recent_NoDup completed processed current queue :
  NoDup queue → NoDup (enqueue_recent completed processed queue current).
Proof.
  intros Hq.
  destruct (enqueue_recent_appends completed processed current queue)
    as [added [-> [Hadded Hnd]]].
  apply NoDup_app. split; [exact Hq|]. split; [|exact Hnd].
  intros x Hx Hx'. destruct (Hadded x Hx') as [_ [_ H]]. contradiction.
Qed.

Lemma enqueue_appends completed current st :
  ∃ added, enqueue completed current st = subdirectory_queue st ++ added
    ∧ ∀ x, x ∈ added → x ∈ completed ∧ (x ∉ processed_directories st).
Proof.
  unfold enqueue.
  destruct (enqueue_new_appends completed (processed_directories st)
              (elements (current ∖ previous_subdirectories st))
              (subdirectory_queue st)) as [a1 [-> H1]].
  destruct (enqueue_recent_appends completed (processed_directories st)
              (elements current) (subdirectory_queue st ++ a1)) as [a2 [-> [H2 _]]].
  exists (a1 ++ a2). split; [symmetry; apply app_assoc|].
  intros x Hx. apply elem_of_app in Hx as [Hx|Hx].
  - destruct (H1 x Hx) as [Ha [Hb _]]. split; assumption.
  - destruct (H2 x Hx) as [Ha [Hb _]]. split; assumption.
Qed.

Section LoopFacts.

Variable cfg : config.

Lemma process_head_empty data cur st w :
  subdirectory_queue st = [] →
  process_head cfg data cur st w
  = (LoopState [] cur (processed_directories st) (processing_failures st), w).
Proof. intros H. unfold process_head. rewrite H. reflexivity. Qed.

Lemma process_head_incomplete data cur st d rest w :
  subdirectory_queue st = d :: rest →
  is_directory_completed data d = false →
  process_head cfg data cur st w
  = (LoopState (rest ++ [d]) cur (processed_directories st)
       (processing_failures st), w).
Proof. intros H1 H2. unfold process_head. rewrite H1, H2. reflexivity. Qed.

Lemma process_head_no_key data cur st d rest w :
  subdirectory_queue st = d :: rest →
  is_directory_completed data d = true →
  PyStr.truthy (BETANIN_API_KEY cfg) = false →
  process_head cfg data cur st w
  = (LoopState rest (previous_subdirectories st) (processed_directories st)
       (processing_failures st), w).
Proof. intros H1 H2 H3. unfold process_head. rewrite H1, H2, H3. reflexivity. Qed.

Lemma process_head_success data cur st d rest w :
  subdirectory_queue st = d :: rest →
  is_directory_completed data d = true →
  PyStr.truthy (BETANIN_API_KEY cfg) = true →
  (import_downloads cfg d w).1 = true →
  process_head cfg data cur st w
  = (LoopState rest cur ({[ d ]} ∪ processed_directories st)
       (processing_failures st),
     (check_manual_intervention_needed cfg (import_downloads cfg d w).2).2).
Proof.
  intros H1 H2 H3 H4. unfold process_head. rewrite H1, H2, H3. cbn [negb].
  rewrite bind_run, H4, bind_run. reflexivity.
Qed.

Lemma process_head_failure data cur st d rest w :
  subdirectory_queue st = d :: rest →
  is_directory_completed data d = true →
  PyStr.truthy (BETANIN_API_KEY cfg) = true →
  (import_downloads cfg d w).1 = false →
  process_head cfg data cur st w
  = (LoopState
       (if 3 <=? S (default 0 (processing_failures st !! d))
        then rest else rest ++ [d])
       cur (processed_directories st)
       (record_failure d (processing_failures st)),
     (import_downloads cfg d w).2).
Proof.
  intros H1 H2 H3 H4. unfold process_head. rewrite H1, H2, H3. cbn [negb].
  rewrite bind_run, H4. cbv zeta. rewrite record_failure_total.
  destruct (3 <=? S (default 0 (processing_failures st !! d))); reflexivity.
Qed.

Lemma process_head_processed data cur st w :
  processed_directories (process_head cfg data cur st w).1
  = match subdirectory_queue st with
    | d :: _ =>
        if attempted cfg data d && (import_downloads cfg d w).1
        then {[ d ]} ∪ processed_directories st
        else processed_directories st
    | [] => processed_directories st
    end.
Proof.
  unfold attempted.
  destruct (subdirectory_queue st) as [|d rest] eqn:Hq.
  - rewrite (process_head_empty _ _ _ _ Hq). reflexivity.
  - destruct (is_directory_completed data d) eqn:Hc.
    + destruct (PyStr.truthy (BETANIN_API_KEY cfg)) eqn:Hk.
      * destruct (import_downloads cfg d w).1 eqn:Hi.
        -- rewrite (process_head_success _ _ _ _ _ _ Hq Hc Hk Hi). reflexivity.
        -- rewrite (process_head_failure _ _ _ _ _ _ Hq Hc Hk Hi). reflexivity.
      * rewrite (process_head_no_key _ _ _ _ _ _ Hq Hc Hk). reflexivity.
    + rewrite (process_head_incomplete _ _ _ _ _ _ Hq Hc). reflexivity.
Qed.

Lemma process_head_failures data cur st w :
  processing_failures (process_head cfg data cur st w).1
  = match subdirectory_queue st with
    | d :: _ =>
        if attempted cfg data d && negb (import_downloads cfg d w).1
        then record_failure d (processing_failures st)
        else processing_failures st
    | [] => processing_failures st
    end.
Proof.
  unfold attempted.
  destruct (subdirectory_queue st) as [|d rest] eqn:Hq.
  - rewrite (process_head_empty _ _ _ _ Hq). reflexivity.
  - destruct (is_directory_completed data d) eqn:Hc.
    + destruct (PyStr.truthy (BETANIN_API_KEY cfg)) eqn:Hk.
      * destruct (import_downloads cfg d w).1 eqn:Hi.
        -- rewrite (process_head_success _ _ _ _ _ _ Hq Hc Hk Hi). reflexivity.
        -- rewrite (process_head_failure _ _ _ _ _ _ Hq Hc Hk Hi). reflexivity.
      * rewrite (process_head_no_key _ _ _ _ _ _ Hq Hc Hk). reflexivity.
    + rewrite (process_head_incomplete _ _ _ _ _ _ Hq Hc). reflexivity.
Qed.

(** One iteration, with its two status requests made explicit. *)
Lemma cycle_run st w :
  cycle cfg st w
  = let download_data := fetched (outcome w 0) in
    let current_subdirectories := subdirectories_of (fetched (outcome w 1)) in
    process_head cfg download_data current_subdirectories
      (LoopState
         (enqueue (get_completed_directories download_data)
            current_subdirectories st)
         (previous_subdirectories st) (processed_directories st)
         (processing_failures st))
      (after (downloads_request cfg) (after (downloads_request cfg) w)).
Proof.
  unfold cycle. rewrite bind_run, get_download_status_run. cbn [fst snd].
  rewrite bind_run, get_subdirectories_run, outcome_after. reflexivity.
Qed.

Lemma cycle_processed_subseteq st w :
  processed_directories st ⊆ processed_directories (cycle cfg st w).1.
Proof.
  rewrite cycle_run. cbv zeta. rewrite process_head_processed. cbn.
  destruct (enqueue _ _ st) as [|d rest]; [reflexivity|].
  destruct (attempted _ _ d && _); [apply union_subseteq_r|reflexivity].
Qed.

Lemma cycle_failures_grow st w k c :
  processing_failures st !! k = Some c →
  ∃ c', processing_failures (cycle cfg st w).1 !! k = Some c' ∧ c ≤ c'.
Proof.
  intros H. rewrite cycle_run. cbv zeta. rewrite process_head_failures. cbn.
  destruct (enqueue _ _ st) as [|d rest]; [exists c; split; [exact H|lia]|].
  destruct (attempted _ _ d && _).
  - apply record_failure_grows, H.
  - exists c. split; [exact H|lia].
Qed.

Lemma iterate_S n st w :
  iterate cfg (S n) st w = iterate cfg n (cycle cfg st w).1 (cycle cfg st w).2.
Proof. simpl. rewrite bind_run. reflexivity. Qed.

End LoopFacts.

(** C1.  When the head [d] of the queue is re-validated as complete and its
    import fails, the counter of [d] goes up by exactly one (from 0 when
    [d] has no entry), [d] is not added to [processed_directories], and [d]
    is popped: it is dropped when the new count is at least 3 and appended
    to the tail otherwise.  For a counter that was below 3, [d] is dropped
    exactly when the count reaches 3. *)
Theorem import_failure_step (cfg : config) (data : list user_info)
    (cur : gset string) (st : loop_state) (d : string) (rest : list string)
    (w : world) :
  subdirectory_queue st = d :: rest →
  is_directory_completed data d = true →
  PyStr.truthy (BETANIN_API_KEY cfg) = true →
  (import_downloads cfg d w).1 = false →
  let st' := (process_head cfg data cur st w).1 in
  let n := S (default 0 (processing_failures st !! d)) in
  processing_failures st' !! d = Some n
  ∧ processed_directories st' = processed_directories st
  ∧ (3 ≤ n → subdirectory_queue st' = rest)
  ∧ (n < 3 → subdirectory_queue st' = rest ++ [d])
  ∧ (subdirectory_queue st' = rest ↔ 3 ≤ n)
  ∧ (default 0 (processing_failures st !! d) < 3 →
     (subdirectory_queue st' = rest ↔ n = 3)).
Proof.
  intros Hq Hc Hk Hi st' n. subst st'.
  rewrite (process_head_failure _ _ _ _ _ _ _ Hq Hc Hk Hi). cbn [fst].
  cbn [processing_failures processed_directories subdirectory_queue].
  fold n.
  assert (Hne : rest ++ [d] ≠ rest).
  { intros H. apply (f_equal length) in H. rewrite length_app in H. simpl in H. lia. }
  split; [apply record_failure_lookup|]. split; [reflexivity|].
  destruct (Nat.leb_spec 3 n) as [Hn|Hn].
  - split; [reflexivity|]. split; [lia|]. split; [tauto|].
    intros Hlt. split; [intros _; lia|reflexivity].
  - split; [lia|]. split; [reflexivity|]. split.
    + split; [intros H; contradiction|lia].
    + intros _. split; [intros H; contradiction|lia].
Qed.

Lemma import_failure_step_witness :
  subdirectory_queue one_failure = "AlbumX" :: ["AlbumY"]
  ∧ is_directory_completed albumx_done "AlbumX" = true
  ∧ PyStr.truthy (BETANIN_API_KEY cfg0) = true
  ∧ (import_downloads cfg0 "AlbumX" probe_401).1 = false
  ∧ let st' := (process_head cfg0 albumx_done {[ "AlbumX" ]} one_failure probe_401).1 in
    processing_failures st' !! "AlbumX" = Some 2
    ∧ subdirectory_queue st' = ["AlbumY"; "AlbumX"].
Proof.
  assert (Hq : subdirectory_queue one_failure = "AlbumX" :: ["AlbumY"]) by reflexivity.
  assert (Hc : is_directory_completed albumx_done "AlbumX" = true) by reflexivity.
  assert (Hk : PyStr.truthy (BETANIN_API_KEY cfg0) = true) by reflexivity.
  assert (Hi : (import_downloads cfg0 "AlbumX" probe_401).1 = false) by reflexivity.
  repeat (split; [assumption|]).
  pose proof (import_failure_step cfg0 albumx_done {[ "AlbumX" ]} one_failure
                "AlbumX" ["AlbumY"] probe_401 Hq Hc Hk Hi) as H.
  cbv zeta in H. destruct H as [H1 [_ [_ [H2 _]]]].
  cbv zeta. split.
  - exact H1.
  - apply H2. vm_compute. lia.
Defined.

(** C5.  [processed_directories] never loses a name, through any number of
    iterations.  One iteration adds the head of the queue when, and only
    when, the head is re-validated as complete, the key is configured and
    [import_downloads] succeeds; the head is then popped, after the call of
    [check_manual_intervention_needed].  Neither enqueue loop appends a name
    that is in [processed_directories]. *)
Theorem processed_directories_grow (cfg : config) :
  (∀ n st w,
     processed_directories st ⊆ processed_directories (iterate cfg n st w).1)
  ∧ (∀ data cur st w,
       processed_directories (process_head cfg data cur st w).1
       = match subdirectory_queue st with
         | d :: _ =>
             if attempted cfg data d && (import_downloads cfg d w).1
             then {[ d ]} ∪ processed_directories st
             else processed_directories st
         | [] => processed_directories st
         end)
  ∧ (∀ data cur st d rest w,
       subdirectory_queue st = d :: rest →
       attempted cfg data d = true →
       (import_downloads cfg d w).1 = true →
       process_head cfg data cur st w
       = (LoopState rest cur ({[ d ]} ∪ processed_directories st)
            (processing_failures st),
          (check_manual_intervention_needed cfg (import_downloads cfg d w).2).2))
  ∧ (∀ completed cur st,
       ∃ added, enqueue completed cur st = subdirectory_queue st ++ added
         ∧ ∀ x, x ∈ added → x ∉ processed_directories st).
Proof.
  split; [|split; [|split]].
  - induction n as [|n IH]; intros st w; [reflexivity|].
    rewrite iterate_S. etrans; [apply (cycle_processed_subseteq cfg st w)|apply IH].
  - apply process_head_processed.
  - intros data cur st d rest w Hq Ha Hi.
    apply andb_true_iff in Ha as [Hc Hk].
    apply process_head_success; assumption.
  - intros completed cur st.
    destruct (enqueue_appends completed cur st) as [added [Heq Hadded]].
    exists added. split; [exact Heq|]. intros x Hx. apply (Hadded x Hx).
Qed.

Lemma processed_directories_grow_witness :
  subdirectory_queue one_failure = "AlbumX" :: ["AlbumY"]
  ∧ attempted cfg0 albumx_done "AlbumX" = true
  ∧ (import_downloads cfg0 "AlbumX" accepting).1 = true
  ∧ process_head cfg0 albumx_done {[ "AlbumX" ]} one_failure accepting
    = (LoopState ["AlbumY"] {[ "AlbumX" ]}
         ({[ "AlbumX" ]} ∪ processed_directories one_failure)
         (processing_failures one_failure),
       (check_manual_intervention_needed cfg0
          (import_downloads cfg0 "AlbumX" accepting).2).2).
Proof.
  assert (Hq : subdirectory_queue one_failure = "AlbumX" :: ["AlbumY"]) by reflexivity.
  assert (Ha : attempted cfg0 albumx_done "AlbumX" = true) by reflexivity.
  assert (Hi : (import_downloads cfg0 "AlbumX" accepting).1 = true) by reflexivity.
  repeat (split; [assumption|]).
  exact (proj1 (proj2 (proj2 (processed_directories_grow cfg0)))
           albumx_done {[ "AlbumX" ]} one_failure "AlbumX" ["AlbumY"] accepting
           Hq Ha Hi).
Defined.

(** C9, counterexample.  With two failures on record, a third failed import
    drops the head from the queue and leaves its entry in the map, at 3. *)
Lemma abandoned_entry_stays :
  let st' := (process_head cfg0 albumx_done {[ "AlbumX" ]} two_failures probe_401).1 in
  subdirectory_queue st' = ["AlbumY"]
  ∧ processing_failures st' !! "AlbumX" = Some 3
  ∧ ¬ entry_removed_on_abandon cfg0 albumx_done {[ "AlbumX" ]} two_failures probe_401.
Proof.
  cbv zeta.
  assert (H1 : subdirectory_queue
                 (process_head cfg0 albumx_done {[ "AlbumX" ]} two_failures probe_401).1
               = ["AlbumY"]) by (vm_compute; reflexivity).
  assert (H2 : processing_failures
                 (process_head cfg0 albumx_done {[ "AlbumX" ]} two_failures probe_401).1
                 !! "AlbumX" = Some 3) by (vm_compute; reflexivity).
  split; [exact H1|]. split; [exact H2|].
  intros H. specialize (H "AlbumX" ["AlbumY"] eq_refl eq_refl eq_refl H1).
  rewrite H2 in H. discriminate.
Qed.

(** C9, amended.  Only a failed import of the head changes
    [processing_failures], by [record_failure]: the map is unchanged when
    the head is requeued as not complete, and unchanged on success (no
    reset).  No entry is ever removed nor lowered, through any number of
    iterations, also when the directory is dropped at the cap. *)
Theorem processing_failures_frame (cfg : config) :
  (∀ data cur st w,
     processing_failures (process_head cfg data cur st w).1
     = match subdirectory_queue st with
       | d :: _ =>
           if attempted cfg data d && negb (import_downloads cfg d w).1
           then record_failure d (processing_failures st)
           else processing_failures st
       | [] => processing_failures st
       end)
  ∧ (∀ n st w k c,
       processing_failures st !! k = Some c →
       ∃ c', processing_failures (iterate cfg n st w).1 !! k = Some c' ∧ c ≤ c').
Proof.
  split; [apply process_head_failures|].
  induction n as [|n IH]; intros st w k c H.
  - exists c. split; [exact H|lia].
  - rewrite iterate_S.
    destruct (cycle_failures_grow cfg st w k c H) as [c1 [H1 Hle1]].
    destruct (IH _ (cycle cfg st w).2 k c1 H1) as [c2 [H2 Hle2]].
    exists c2. split; [exact H2|lia].
Qed.

Lemma processing_failures_frame_witness :
  processing_failures two_failures !! "AlbumX" = Some 2
  ∧ ∃ c', processing_failures
            (iterate cfg0 1 two_failures (World always_401 [])).1 !! "AlbumX"
          = Some c' ∧ 2 ≤ c'.
Proof.
  assert (H : processing_failures two_failures !! "AlbumX" = Some 2)
    by (vm_compute; reflexivity).
  split; [exact H|].
  exact (proj2 (processing_failures_frame cfg0) 1 two_failures
           (World always_401 []) "AlbumX" 2 H).
Defined.

(** ** The loop [for directory in new_subdirectories] does not test the queue *)

(** A name that is complete and not processed is appended by the first
    enqueue loop even when the queue holds it already. *)
Lemma enqueue_new_no_dedup completed processed queue d :
  d ∈ completed → d ∉ processed →
  enqueue_new completed processed queue [d] = queue ++ [d].
Proof.
  intros H1 H2. rewrite enqueue_new_cons.
  rewrite (bool_decide_eq_true_2 _ H1), (bool_decide_eq_true_2 _ H2). reflexivity.
Qed.

(** C2, the code at the failing input.  After startup and one iteration the
    queue is [AlbumX] and [previous_subdirectories] is empty; the enqueue
    step of the next iteration, in which AlbumX is new and complete, makes
    the queue [AlbumX; AlbumX]; the directory is then imported in the second
    iteration and again in the third. *)
Theorem new_loop_enqueues_queued_name :
  subdirectory_queue (run_from_startup 1).1 = ["AlbumX"]
  ∧ elements (previous_subdirectories (run_from_startup 1).1) = []
  ∧ elements (processed_directories (run_from_startup 1).1) = []
  ∧ enqueue (get_completed_directories albumx_done)
      (subdirectories_of albumx_done) (run_from_startup 1).1
    = ["AlbumX"; "AlbumX"]
  ∧ subdirectory_queue (run_from_startup 2).1 = ["AlbumX"]
  ∧ elements (processed_directories (run_from_startup 2).1) = ["AlbumX"]
  ∧ posts (sent (run_from_startup 3).2)
    = [import_request cfg0 "AlbumX"; import_request cfg0 "AlbumX"].
Proof. vm_compute. repeat split. Qed.

(** Scenario D: three failed imports in a row drop the directory at the
    third, with the counter at 1, 2 and 3. *)
Example scenario_D :
  let run n := ((st ← startup cfg0; iterate cfg0 n st) (World always_401 [])).1 in
  (subdirectory_queue (run 1), processing_failures (run 1) !! "AlbumX")
  = (["AlbumX"], Some 1)
  ∧ (subdirectory_queue (run 2), processing_failures (run 2) !! "AlbumX")
    = (["AlbumX"], Some 2)
  ∧ (subdirectory_queue (run 3), processing_failures (run 3) !! "AlbumX")
    = ([], Some 3).
Proof. vm_compute. repeat split. Qed.


(** * Further properties of the code *)

(** ** The string helpers and the normalisation *)

Module PyStrFacts.

Lemma contains_replace old new s :
  old ≠ new → PyStr.contains old (PyStr.replace old new s) = false.
Proof.
  intros Hne. induction s as [|c s IH]; [reflexivity|]. simpl.
  rewrite IH, orb_false_r.
  destruct (Ascii.eqb_spec c old) as [->|Hc].
  - apply Ascii.eqb_neq. congruence.
  - apply Ascii.eqb_neq. exact Hc.
Qed.

Lemma replace_id old new s :
  PyStr.contains old s = false → PyStr.replace old new s = s.
Proof.
  induction s as [|c s IH]; [reflexivity|]. simpl. intros H.
  apply orb_false_iff in H as [H1 H2]. rewrite H1, (IH H2). reflexivity.
Qed.

Lemma contains_replace_other ch old new s :
  ch ≠ new →
  PyStr.contains ch s = false → PyStr.contains ch (PyStr.replace old new s) = false.
Proof.
  intros Hne. induction s as [|c s IH]; [reflexivity|]. simpl. intros H.
  apply orb_false_iff in H as [H1 H2]. rewrite (IH H2), orb_false_r.
  destruct (Ascii.eqb c old); [|exact H1].
  apply Ascii.eqb_neq. congruence.
Qed.

Lemma contains_split_last sep s :
  PyStr.contains sep (PyStr.split_last sep s) = false.
Proof.
  induction s as [|c s IH]; [reflexivity|]. simpl.
  destruct (PyStr.contains sep s) eqn:E; [exact IH|].
  destruct (Ascii.eqb c sep) eqn:Ec; [exact E|].
  simpl. rewrite Ec, E. reflexivity.
Qed.

Lemma split_last_id sep s :
  PyStr.contains sep s = false → PyStr.split_last sep s = s.
Proof.
  destruct s as [|c s]; [reflexivity|]. simpl. intros H.
  apply orb_false_iff in H as [H1 H2]. rewrite H2, H1. reflexivity.
Qed.

Lemma contains_split_last_other ch sep s :
  PyStr.contains ch s = false → PyStr.contains ch (PyStr.split_last sep s) = false.
Proof.
  induction s as [|c s IH]; [reflexivity|]. simpl. intros H.
  apply orb_false_iff in H as [H1 H2].
  destruct (PyStr.contains sep s); [apply IH, H2|].
  destruct (Ascii.eqb c sep); [exact H2|].
  simpl. rewrite H1, H2. reflexivity.
Qed.

Lemma contains_rstrip_other ch x s :
  PyStr.contains ch s = false → PyStr.contains ch (PyStr.rstrip x s) = false.
Proof.
  induction s as [|c s IH]; [reflexivity|]. simpl. intros H.
  apply orb_false_iff in H as [H1 H2]. specialize (IH H2).
  destruct (PyStr.rstrip x s) as [|c' r].
  - destruct (Ascii.eqb c x); [reflexivity|]. simpl. rewrite H1. reflexivity.
  - change (PyStr.contains ch (String c (String c' r)) = false).
    simpl. simpl in IH. rewrite H1. exact IH.
Qed.

Lemma replace_app old new s1 s2 :
  PyStr.replace old new (s1 +:+ s2)
  = PyStr.replace old new s1 +:+ PyStr.replace old new s2.
Proof. induction s1 as [|c s1 IH]; [reflexivity|]. simpl. rewrite IH. reflexivity. Qed.

Lemma rstrip_snoc ch s :
  PyStr.rstrip ch (s +:+ String ch EmptyString) = PyStr.rstrip ch s.
Proof.
  induction s as [|c s IH]; simpl.
  - rewrite Ascii.eqb_refl. reflexivity.
  - rewrite IH. reflexivity.
Qed.

Lemma lower_ascii_idemp c :
  PyStr.lower_ascii (PyStr.lower_ascii c) = PyStr.lower_ascii c.
Proof. destruct c as [[] [] [] [] [] [] [] []]; reflexivity. Qed.

Lemma lower_idemp s : PyStr.lower (PyStr.lower s) = PyStr.lower s.
Proof.
  induction s as [|c s IH]; [reflexivity|]. simpl.
  rewrite lower_ascii_idemp, IH. reflexivity.
Qed.

End PyStrFacts.

(** X1.  The normalised name of a path holds neither a slash nor a
    backslash; a trailing slash or backslash does not change it; and the
    name that [import_downloads] derives from a normalised name is this name
    itself, so that the path posted for a queued name is the import
    directory, a slash, and the name. *)
Theorem normalize_is_a_name (cfg : config) (dir_path : string) :
  PyStr.contains "/" (normalize dir_path) = false
  ∧ PyStr.contains "\" (normalize dir_path) = false
  ∧ normalize (dir_path +:+ "/") = normalize dir_path
  ∧ normalize (dir_path +:+ "\") = normalize dir_path
  ∧ normalize (normalize dir_path) = normalize dir_path
  ∧ import_name (normalize dir_path) = normalize dir_path
  ∧ import_request cfg (import_name (normalize dir_path))
    = POST (BETANIN_URL cfg +:+ "/api/torrents/")
        [("both", BETANIN_IMPORT_DIRECTORY cfg +:+ "/" +:+ normalize dir_path)].
Proof.
  assert (Hs : PyStr.contains "/" (normalize dir_path) = false)
    by apply PyStrFacts.contains_split_last.
  assert (Hb : PyStr.contains "\" (normalize dir_path) = false).
  { unfold normalize. apply PyStrFacts.contains_split_last_other,
      PyStrFacts.contains_rstrip_other, PyStrFacts.contains_replace. discriminate. }
  assert (Hr : ∀ s, PyStr.contains "/" s = false → PyStr.rstrip "/" s = s).
  { induction s as [|c s IH]; [reflexivity|]. simpl. intros H.
    apply orb_false_iff in H as [H1 H2]. rewrite (IH H2), H1.
    destruct s; reflexivity. }
  assert (Hi : import_name (normalize dir_path) = normalize dir_path).
  { unfold import_name, PyStr.basename.
    rewrite (PyStrFacts.replace_id _ _ _ Hb). apply PyStrFacts.split_last_id, Hs. }
  split; [exact Hs|]. split; [exact Hb|]. split; [|split; [|split; [|split]]].
  - unfold normalize. rewrite PyStrFacts.replace_app. simpl.
    rewrite PyStrFacts.rstrip_snoc. reflexivity.
  - unfold normalize. rewrite PyStrFacts.replace_app. simpl.
    rewrite PyStrFacts.rstrip_snoc. reflexivity.
  - unfold normalize at 1. rewrite (PyStrFacts.replace_id _ _ _ Hb), (Hr _ Hs).
    apply PyStrFacts.split_last_id, Hs.
  - exact Hi.
  - rewrite Hi. reflexivity.
Qed.

(** ** The completion evaluator *)

Lemma foldl_global_counters tc fs :
  foldl (fun '(total_files, completed_files) file =>
    let state := default "Unknown" (state file) in
    let total_files := S total_files in
    if String.eqb state SENTINEL
    then (total_files, S completed_files)
    else (total_files, completed_files)) tc fs = add_counts tc fs.
Proof.
  rewrite <- foldl_counters. revert tc.
  induction fs as [|f fs IH]; intros [t c]; [reflexivity|].
  simpl. rewrite <- IH. f_equal. unfold state_is_completed.
  destruct (state f) as [s|]; reflexivity.
Qed.

Lemma all_downloads_completed_counts data :
  all_downloads_completed data
  = let tc := counts (all_files data) in
    (Nat.eqb tc.2 tc.1 && Nat.ltb 0 tc.1, tc.2, tc.1).
Proof.
  destruct data as [|u data']; [reflexivity|].
  unfold all_downloads_completed. cbv iota.
  assert (H : ∀ acc es,
    foldl (fun acc directory =>
      foldl (fun '(total_files, completed_files) file =>
        let state := default "Unknown" (state file) in
        let total_files := S total_files in
        if String.eqb state SENTINEL
        then (total_files, S completed_files)
        else (total_files, completed_files))
        acc (files directory)) acc es
    = add_counts acc (es ≫= files)).
  { intros acc es. revert acc. induction es as [|e es IH]; intros acc.
    - simpl. rewrite add_counts_nil. reflexivity.
    - simpl foldl. rewrite IH, foldl_global_counters, bind_cons, add_counts_app.
      reflexivity. }
  rewrite foldl_bind, H. unfold all_files, add_counts. reflexivity.
Qed.

(** X2.  [all_downloads_completed] counts every file of the snapshot, also
    those of entries without a path: it returns the number of files with the
    sentinel state and the number of files, and its flag is true exactly
    when there is at least one file and every file has the sentinel state.
    On the empty snapshot it returns [(False, 0, 0)]. *)
Theorem all_downloads_completed_spec (data : list user_info) :
  (all_downloads_completed data).2 = length (all_files data)
  ∧ (all_downloads_completed data).1.2
    = length (filter has_sentinel_state (all_files data))
  ∧ (all_downloads_completed data).1.2 ≤ (all_downloads_completed data).2
  ∧ ((all_downloads_completed data).1.1 = true
     ↔ all_files data ≠ [] ∧ Forall has_sentinel_state (all_files data))
  ∧ all_downloads_completed [] = (false, 0, 0).
Proof.
  rewrite all_downloads_completed_counts. cbv zeta. cbn [fst snd].
  pose proof (counts_all (all_files data)) as Hall.
  pose proof (counts_le (all_files data)) as Hle.
  unfold counts in *. cbn [fst snd] in *.
  split; [reflexivity|]. split; [reflexivity|]. split; [exact Hle|].
  split; [|reflexivity].
  rewrite andb_true_iff, Nat.eqb_eq, Nat.ltb_lt, Hall. split.
  - intros [H1 H2]. split; [|exact H1]. intros E. rewrite E in H2. simpl in H2. lia.
  - intros [H1 H2]. split; [exact H2|]. destruct (all_files data); [contradiction|].
    simpl. lia.
Qed.

Lemma aggregated_subset data name f :
  f ∈ aggregated_files data name → f ∈ all_files data.
Proof.
  unfold aggregated_files, occurrences, all_files. rewrite !list_elem_of_bind.
  intros [e [Hf He]]. apply list_elem_of_filter in He as [_ He].
  exists e. split; assumption.
Qed.

Lemma matching_subset data q f :
  f ∈ matching_files data q → f ∈ all_files data.
Proof.
  unfold matching_files, all_files. rewrite !list_elem_of_bind.
  intros [e [Hf He]]. apply list_elem_of_filter in He as [_ He].
  exists e. split; assumption.
Qed.

(** The statement of the completed classification, for the proofs below. *)
Lemma elem_of_completed data name :
  name ∈ get_completed_directories data
  ↔ 0 < total_files data name ∧ completed_files data name = total_files data name.
Proof.
  destruct data as [|u data'].
  - simpl. rewrite elem_of_nil. unfold total_files, aggregated_files. simpl.
    split; [tauto|intros [H _]; lia].
  - change (get_completed_directories (u :: data'))
      with (classify (directories_status (u :: data'))).1.
    rewrite elem_of_classify_completed by apply directories_status_NoDup.
    rewrite directories_status_get. unfold is_complete_entry. simpl.
    destruct (occurrences (u :: data') name) eqn:Eo.
    + rewrite (total_files_no_occurrence _ _ Eo).
      split; [intros [v [H _]]; discriminate|intros [H _]; lia].
    + split.
      * intros [v [H1 H2]]. injection H1 as <-. exact H2.
      * intros H. eexists. split; [reflexivity|exact H].
Qed.

Lemma completed_files_all data name :
  completed_files data name = total_files data name
  ↔ Forall has_sentinel_state (aggregated_files data name).
Proof. apply (counts_all (aggregated_files data name)). Qed.

Lemma is_directory_completed_true data q :
  is_directory_completed data q = true
  ↔ matching_files data q ≠ [] ∧ Forall has_sentinel_state (matching_files data q).
Proof.
  rewrite is_directory_completed_counts. cbv zeta.
  pose proof (counts_all (matching_files data q)) as Hall.
  unfold counts in *. cbn [fst snd] in *.
  destruct (matching_files data q) as [|f fs] eqn:E.
  - simpl. split; [discriminate|intros [H _]; contradiction].
  - cbn [length Nat.eqb]. rewrite Nat.eqb_eq, Hall. split.
    + intros H. split; [discriminate|exact H].
    + intros [_ H]. exact H.
Qed.

(** X3.  When [all_downloads_completed] says that everything is complete,
    every directory that has a file is in [get_completed_directories], and
    [is_directory_completed] is true for every query that matches a file. *)
Theorem all_completed_implies_each (data : list user_info) :
  (all_downloads_completed data).1.1 = true →
  (∀ name, 0 < total_files data name → name ∈ get_completed_directories data)
  ∧ (∀ q, matching_files data q ≠ [] → is_directory_completed data q = true).
Proof.
  rewrite all_downloads_completed_counts. cbv zeta. cbn [fst snd].
  rewrite andb_true_iff, Nat.eqb_eq. intros [Hall _].
  apply (counts_all (all_files data)) in Hall.
  rewrite Forall_forall in Hall. split.
  - intros name Hpos. apply elem_of_completed. split; [exact Hpos|].
    apply completed_files_all, Forall_forall. intros f Hf.
    apply Hall, (aggregated_subset _ _ _ Hf).
  - intros q Hq. apply is_directory_completed_true. split; [exact Hq|].
    apply Forall_forall. intros f Hf. apply Hall, (matching_subset _ _ _ Hf).
Qed.

Lemma all_completed_implies_each_witness :
  (all_downloads_completed albumx_done).1.1 = true
  ∧ "AlbumX" ∈ get_completed_directories albumx_done
  ∧ is_directory_completed albumx_done "ALBUMX" = true.
Proof.
  assert (H : (all_downloads_completed albumx_done).1.1 = true) by reflexivity.
  split; [exact H|].
  destruct (all_completed_implies_each albumx_done H) as [H1 H2]. split.
  - apply H1. vm_compute. lia.
  - apply H2. vm_compute. discriminate.
Defined.

Lemma elem_of_subdirectories_fold name es (acc : gset string) :
  name ∈ foldl (fun (acc : gset string) directory_info =>
           let dir_path := directory directory_info in
           if PyStr.truthy dir_path
           then {[ normalize dir_path ]} ∪ acc
           else acc) acc es
  ↔ name ∈ acc ∨ filter (is_occurrence name) es ≠ [].
Proof.
  revert acc. induction es as [|e es IH]; intros acc.
  - simpl. split; [intros H; left; exact H|intros [H|H]; [exact H|contradiction]].
  - simpl foldl. rewrite IH, filter_cons. cbv zeta. unfold is_occurrence at 2.
    destruct (PyStr.truthy (directory e)) eqn:Et.
    + apply truthy_true in Et. rewrite elem_of_union, elem_of_singleton.
      destruct (decide (directory e ≠ "" ∧ normalize (directory e) = name))
        as [[_ Hn]|Hn].
      * split; [intros _; right; discriminate|intros _; left; left; congruence].
      * split.
        -- intros [[H|H]|H]; [|left; exact H|right; exact H].
           exfalso. apply Hn. split; [exact Et|congruence].
        -- intros [H|H]; [left; right; exact H|right; exact H].
    + apply truthy_false in Et. rewrite decide_False; [reflexivity|].
      intros [H _]. contradiction.
Qed.

Lemma elem_of_subdirectories_of data name :
  name ∈ subdirectories_of data ↔ occurrences data name ≠ [].
Proof.
  unfold subdirectories_of, occurrences.
  rewrite (foldl_bind
    (fun (acc : gset string) directory_info =>
       let dir_path := directory directory_info in
       if PyStr.truthy dir_path then {[ normalize dir_path ]} ∪ acc else acc)
    directories ∅ data).
  rewrite elem_of_subdirectories_fold. split.
  - intros [H|H]; [|exact H]. apply not_elem_of_empty in H. contradiction.
  - intros H. right. exact H.
Qed.

(** X4.  On one snapshot, the names of [subdirectories_of] are exactly the
    names that [get_completed_directories] classifies: each name is either
    in the completed list or in the in-progress list, never in both, and
    neither list holds a name that is not a directory name of the
    snapshot. *)
Theorem classification_partitions_names (data : list user_info)
    (l : list string) (name : string) :
  in_progress_directories data = Some l →
  (name ∈ subdirectories_of data ↔ name ∈ get_completed_directories data ∨ name ∈ l)
  ∧ ¬ (name ∈ get_completed_directories data ∧ name ∈ l).
Proof.
  intros Hl. rewrite elem_of_subdirectories_of, elem_of_completed.
  rewrite (in_progress_spec data name l Hl). split.
  - split.
    + intros Hocc.
      destruct (decide (0 < total_files data name
                        ∧ completed_files data name = total_files data name))
        as [H|H]; [left; exact H|right; split; assumption].
    + intros [[Hpos _]|[Hocc _]]; [|exact Hocc].
      intros E. rewrite (total_files_no_occurrence _ _ E) in Hpos. lia.
  - intros [H [_ Hn]]. contradiction.
Qed.

Lemma classification_partitions_names_witness :
  in_progress_directories case_variants = Some ["albumx"]
  ∧ ("AlbumX" ∈ subdirectories_of case_variants
     ↔ "AlbumX" ∈ get_completed_directories case_variants ∨ "AlbumX" ∈ ["albumx"]).
Proof.
  assert (H : in_progress_directories case_variants = Some ["albumx"]) by reflexivity.
  split; [exact H|].
  exact (proj1 (classification_partitions_names case_variants ["albumx"] "AlbumX" H)).
Defined.

Lemma matching_files_lower data q1 q2 :
  PyStr.lower q1 = PyStr.lower q2 → matching_files data q1 = matching_files data q2.
Proof.
  intros H. unfold matching_files. f_equal. apply list_filter_iff.
  intros e. unfold matches_query. rewrite H. reflexivity.
Qed.

(** X5.  [is_directory_completed] depends on its query only up to case: two
    queries with the same lower-case form get the same answer, and so do a
    query and its lower-case form. *)
Theorem is_directory_completed_case_insensitive (data : list user_info)
    (q1 q2 : string) :
  PyStr.lower q1 = PyStr.lower q2 →
  is_directory_completed data q1 = is_directory_completed data q2
  ∧ is_directory_completed data (PyStr.lower q1) = is_directory_completed data q1.
Proof.
  intros H. rewrite !is_directory_completed_counts. split.
  - rewrite (matching_files_lower data q1 q2 H). reflexivity.
  - rewrite (matching_files_lower data (PyStr.lower q1) q1); [reflexivity|].
    apply PyStrFacts.lower_idemp.
Qed.

Lemma is_directory_completed_case_insensitive_witness :
  PyStr.lower "AlbumX" = PyStr.lower "ALBUMx"
  ∧ is_directory_completed albumx_done "AlbumX"
    = is_directory_completed albumx_done "ALBUMx".
Proof.
  assert (H : PyStr.lower "AlbumX" = PyStr.lower "ALBUMx") by reflexivity.
  split; [exact H|].
  exact (proj1 (is_directory_completed_case_insensitive albumx_done _ _ H)).
Defined.





(** ** The import client *)

Lemma get_download_outcome_world cfg i w :
  (get_download_outcome cfg i w).2 = after (console_request cfg i) w.
Proof.
  unfold get_download_outcome. rewrite bind_run, http_run. cbn [fst snd].
  destruct (outcome w 0) as [r|]; [|reflexivity].
  destruct ((400 <=? status_code r) && (status_code r <? 600)); [reflexivity|].
  destruct (body r); reflexivity.
Qed.

Lemma check_manual_no_key cfg w :
  PyStr.truthy (BETANIN_API_KEY cfg) = false →
  check_manual_intervention_needed cfg w = (false, w).
Proof. intros H. unfold check_manual_intervention_needed. rewrite H. reflexivity. Qed.

Lemma check_manual_run cfg w :
  PyStr.truthy (BETANIN_API_KEY cfg) = true →
  check_manual_intervention_needed cfg w
  = match last_job (outcome w 0) with
    | Some t =>
        if negb (String.eqb (status t) "COMPLETED")
        then (true, after (console_request cfg (id t))
                      (after (last_torrent_request cfg) w))
        else (false, after (last_torrent_request cfg) w)
    | None => (false, after (last_torrent_request cfg) w)
    end.
Proof.
  intros H. unfold check_manual_intervention_needed. rewrite H. cbn [negb].
  cbv iota. rewrite bind_run, http_run. cbn [fst snd]. unfold last_job.
  destruct (outcome w 0) as [r|]; [|reflexivity].
  destruct (status_code r =? 200); cbn [negb]; [|reflexivity].
  destruct (body r) as [| [|t ts] | |]; try reflexivity.
  destruct (negb (String.eqb (status t) "COMPLETED")); [|reflexivity].
  rewrite bind_run, get_download_outcome_world. reflexivity.
Qed.

(** X7.  [check_manual_intervention_needed] makes no request without a key.
    With a key it lists the most recent job and returns [True] exactly when
    the listing answers 200 with a first job whose status is not
    ["COMPLETED"]; it then fetches the console output of that job, and of no
    job otherwise.  A failed listing, another status code and an empty list
    all give [False]. *)
Theorem check_manual_intervention_needed_spec (cfg : config) (w : world) :
  (PyStr.truthy (BETANIN_API_KEY cfg) = false →
   check_manual_intervention_needed cfg w = (false, w))
  ∧ (PyStr.truthy (BETANIN_API_KEY cfg) = true →
     (check_manual_intervention_needed cfg w).1
     = match last_job (outcome w 0) with
       | Some t => negb (String.eqb (status t) "COMPLETED")
       | None => false
       end
     ∧ sent (check_manual_intervention_needed cfg w).2
       = sent w ++ last_torrent_request cfg ::
           match last_job (outcome w 0) with
           | Some t =>
               if (check_manual_intervention_needed cfg w).1
               then [console_request cfg (id t)] else []
           | None => []
           end).
Proof.
  split; [apply check_manual_no_key|]. intros H.
  rewrite (check_manual_run _ _ H).
  destruct (last_job (outcome w 0)) as [t|]; [|split; reflexivity].
  destruct (negb (String.eqb (status t) "COMPLETED")); cbn [fst snd].
  - split; [reflexivity|]. rewrite !sent_after, <- app_assoc. reflexivity.
  - split; reflexivity.
Qed.

Lemma check_manual_intervention_needed_spec_witness :
  PyStr.truthy (BETANIN_API_KEY cfg0) = true
  ∧ let w := World [Some (Response 200
                       (JsonTorrents [TorrentInfo "7" "NEEDS_INPUT" "AlbumX"]))] [] in
    (check_manual_intervention_needed cfg0 w).1 = true
    ∧ sent (check_manual_intervention_needed cfg0 w).2
      = [last_torrent_request cfg0; console_request cfg0 "7"].
Proof.
  assert (H : PyStr.truthy (BETANIN_API_KEY cfg0) = true) by reflexivity.
  split; [exact H|]. cbv zeta.
  exact (proj2 (check_manual_intervention_needed_spec cfg0
    (World [Some (Response 200
              (JsonTorrents [TorrentInfo "7" "NEEDS_INPUT" "AlbumX"]))] [])) H).
Defined.

(** ** The requests of one iteration *)

Lemma posts_app l1 l2 : posts (l1 ++ l2) = posts l1 ++ posts l2.
Proof. apply bind_app. Qed.

Lemma extends_trans w1 w2 w3 l1 l2 :
  extends w1 w2 l1 → extends w2 w3 l2 → extends w1 w3 (l1 ++ l2).
Proof. unfold extends. intros H1 H2. rewrite H2, H1, app_assoc. reflexivity. Qed.

Lemma import_downloads_requests cfg d w :
  ∃ l, extends w (import_downloads cfg d w).2 l
       ∧ length l ≤ 3 ∧ length (posts l) ≤ 1.
Proof.
  unfold extends. destruct (PyStr.truthy (BETANIN_API_KEY cfg)) eqn:Hk.
  - rewrite (import_downloads_run _ _ _ Hk). cbv zeta.
    destruct (is_200 (outcome w 1)); cbn [snd]; rewrite !sent_after, <- !app_assoc;
      eexists; (split; [reflexivity|]); simpl; lia.
  - rewrite (import_downloads_no_key _ _ _ Hk). exists [].
    rewrite app_nil_r. simpl. repeat split; lia.
Qed.

Lemma check_manual_requests cfg w :
  ∃ l, extends w (check_manual_intervention_needed cfg w).2 l
       ∧ length l ≤ 2 ∧ posts l = [].
Proof.
  unfold extends. destruct (PyStr.truthy (BETANIN_API_KEY cfg)) eqn:Hk.
  - rewrite (check_manual_run _ _ Hk).
    destruct (last_job (outcome w 0)) as [t|];
      [destruct (negb (String.eqb (status t) "COMPLETED"))|];
      cbn [snd]; rewrite !sent_after, <- ?app_assoc;
      eexists; (split; [reflexivity|]); simpl; split; (lia || reflexivity).
  - rewrite (check_manual_no_key _ _ Hk). exists [].
    rewrite app_nil_r. simpl. repeat split; lia.
Qed.

Lemma process_head_requests cfg data cur st w :
  ∃ l, extends w (process_head cfg data cur st w).2 l
       ∧ length l ≤ 5 ∧ length (posts l) ≤ 1.
Proof.
  assert (Hnil : extends w w [] ∧ length (@nil request) ≤ 5
                 ∧ length (posts []) ≤ 1).
  { unfold extends. rewrite app_nil_r. simpl. repeat split; lia. }
  destruct (subdirectory_queue st) as [|d rest] eqn:Hq.
  { rewrite (process_head_empty _ _ _ _ _ Hq). exists []. exact Hnil. }
  destruct (is_directory_completed data d) eqn:Hc.
  2:{ rewrite (process_head_incomplete _ _ _ _ _ _ _ Hq Hc). exists []. exact Hnil. }
  destruct (PyStr.truthy (BETANIN_API_KEY cfg)) eqn:Hk.
  2:{ rewrite (process_head_no_key _ _ _ _ _ _ _ Hq Hc Hk). exists []. exact Hnil. }
  destruct (import_downloads_requests cfg d w) as [l1 [H1 [Hl1 Hp1]]].
  destruct (import_downloads cfg d w).1 eqn:Hi.
  - rewrite (process_head_success _ _ _ _ _ _ _ Hq Hc Hk Hi). cbn [snd].
    destruct (check_manual_requests cfg (import_downloads cfg d w).2)
      as [l2 [H2 [Hl2 Hp2]]].
    exists (l1 ++ l2). split; [exact (extends_trans _ _ _ _ _ H1 H2)|].
    rewrite posts_app, Hp2, app_nil_r, length_app. lia.
  - rewrite (process_head_failure _ _ _ _ _ _ _ Hq Hc Hk Hi). cbn [snd].
    exists l1. split; [exact H1|]. lia.
Qed.

(** X8.  One iteration of the loop only adds requests to those already
    made: at most seven, the first two being the status requests to slskd,
    and at most one POST. *)
Theorem cycle_request_bound (cfg : config) (st : loop_state) (w : world) :
  ∃ l, sent (cycle cfg st w).2
       = sent w ++ downloads_request cfg :: downloads_request cfg :: l
    ∧ length l ≤ 5
    ∧ length (posts (downloads_request cfg :: downloads_request cfg :: l)) ≤ 1.
Proof.
  rewrite cycle_run. cbv zeta.
  match goal with
  | |- context [process_head cfg ?data ?cur ?st' ?w'] =>
      destruct (process_head_requests cfg data cur st' w') as [l [H [Hl Hp]]]
  end.
  exists l. split; [|split; [exact Hl|exact Hp]].
  unfold extends in H. rewrite H, !sent_after, <- !app_assoc. reflexivity.
Qed.

(** ** The queue *)

Lemma enqueue_new_filter completed processed new queue :
  enqueue_new completed processed queue new
  = queue ++ filter (fun d => d ∈ completed ∧ d ∉ processed) new.
Proof.
  revert queue. induction new as [|d new IH]; intros queue.
  - rewrite filter_nil, app_nil_r. reflexivity.
  - rewrite enqueue_new_cons, IH, filter_cons.
    destruct (decide (d ∈ completed ∧ d ∉ processed)) as [[H1 H2]|H].
    + rewrite (bool_decide_eq_true_2 _ H1), (bool_decide_eq_true_2 _ H2).
      simpl. rewrite <- app_assoc. reflexivity.
    + destruct (bool_decide (d ∈ completed) && bool_decide (d ∉ processed)) eqn:E;
        [|reflexivity].
      apply andb_true_iff in E as [E1 E2].
      apply bool_decide_eq_true in E1. apply bool_decide_eq_true in E2.
      exfalso. apply H. split; assumption.
Qed.

Lemma enqueue_recent_mono completed processed current queue x :
  x ∈ queue → x ∈ enqueue_recent completed processed queue current.
Proof.
  intros Hx.
  destruct (enqueue_recent_appends completed processed current queue)
    as [added [-> _]].
  apply elem_of_app. left. exact Hx.
Qed.

Lemma enqueue_recent_complete completed processed current queue d :
  d ∈ current → d ∈ completed → d ∉ processed →
  d ∈ enqueue_recent completed processed queue current.
Proof.
  revert queue. induction current as [|c current IH]; intros queue Hd Hc Hp.
  - inversion Hd.
  - rewrite enqueue_recent_cons. apply elem_of_cons in Hd as [<-|Hd].
    + apply enqueue_recent_mono.
      rewrite (bool_decide_eq_true_2 _ Hc), (bool_decide_eq_true_2 _ Hp).
      cbn [andb]. destruct (bool_decide (d ∉ queue)) eqn:E.
      * apply elem_of_app. right. apply list_elem_of_here.
      * apply bool_decide_eq_false in E. destruct (decide (d ∈ queue)); tauto.
    + apply IH; assumption.
Qed.

(** X9.  After the two enqueue loops the queue starts with the queue as it
    was, and it holds every name that is in the current set, in the
    completed list and not in the processed set: a directory dropped
    earlier, for instance after three failed imports, is queued again as
    long as slskd reports it complete. *)
Theorem enqueue_catches_every_candidate (completed : list string)
    (current : gset string) (st : loop_state) :
  (∃ added, enqueue completed current st = subdirectory_queue st ++ added)
  ∧ (∀ d, d ∈ current → d ∈ completed → d ∉ processed_directories st →
          d ∈ enqueue completed current st).
Proof.
  split.
  - destruct (enqueue_appends completed current st) as [added [H _]].
    exists added. exact H.
  - intros d Hd Hc Hp. unfold enqueue. apply enqueue_recent_complete.
    + apply elem_of_elements, Hd.
    + exact Hc.
    + exact Hp.
Qed.

(** X10.  The enqueue step keeps a queue free of duplicates when no queued
    name is among the newly appeared names ([current - previous]). *)
Theorem enqueue_NoDup (completed : list string) (current : gset string)
    (st : loop_state) :
  NoDup (subdirectory_queue st) →
  (∀ d, d ∈ subdirectory_queue st → d ∉ current ∖ previous_subdirectories st) →
  NoDup (enqueue completed current st).
Proof.
  intros Hnd Hnew. unfold enqueue. apply enqueue_recent_NoDup.
  rewrite enqueue_new_filter. apply NoDup_app. split; [exact Hnd|]. split.
  - intros x Hx Hx'. apply list_elem_of_filter in Hx' as [_ Hx'].
    apply elem_of_elements in Hx'. exact (Hnew x Hx Hx').
  - apply NoDup_filter, NoDup_elements.
Qed.

Lemma enqueue_NoDup_witness :
  NoDup (subdirectory_queue one_failure)
  ∧ (∀ d, d ∈ subdirectory_queue one_failure →
          d ∉ ({[ "AlbumX"; "AlbumZ" ]} : gset string)
              ∖ previous_subdirectories one_failure)
  ∧ NoDup (enqueue ["AlbumX"; "AlbumZ"] {[ "AlbumX"; "AlbumZ" ]} one_failure).
Proof.
  assert (H1 : NoDup (subdirectory_queue one_failure)).
  { apply NoDup_cons. split.
    - intros H. apply list_elem_of_singleton in H. discriminate.
    - apply NoDup_singleton. }
  assert (H2 : ∀ d, d ∈ subdirectory_queue one_failure →
                 d ∉ ({[ "AlbumX"; "AlbumZ" ]} : gset string)
                     ∖ previous_subdirectories one_failure).
  { intros d Hd Hin. apply elem_of_difference in Hin as [Hin Hout].
    unfold one_failure in Hd, Hout.
    cbn [subdirectory_queue previous_subdirectories] in Hd, Hout.
    apply elem_of_cons in Hd as [->|Hd].
    - apply Hout. apply elem_of_singleton. reflexivity.
    - apply list_elem_of_singleton in Hd as ->.
      apply elem_of_union in Hin as [Hin|Hin];
        apply elem_of_singleton in Hin; discriminate. }
  split; [exact H1|]. split; [exact H2|].
  exact (enqueue_NoDup ["AlbumX"; "AlbumZ"] {[ "AlbumX"; "AlbumZ" ]} one_failure
           H1 H2).
Defined.





(** ** The loop over several iterations *)

Lemma process_head_without_key cfg data cur st w :
  PyStr.truthy (BETANIN_API_KEY cfg) = false →
  (process_head cfg data cur st w).2 = w
  ∧ processed_directories (process_head cfg data cur st w).1
    = processed_directories st
  ∧ processing_failures (process_head cfg data cur st w).1
    = processing_failures st.
Proof.
  intros Hk. destruct (subdirectory_queue st) as [|d rest] eqn:Hq.
  - rewrite (process_head_empty _ _ _ _ _ Hq). repeat split.
  - destruct (is_directory_completed data d) eqn:Hc.
    + rewrite (process_head_no_key _ _ _ _ _ _ _ Hq Hc Hk). repeat split.
    + rewrite (process_head_incomplete _ _ _ _ _ _ _ Hq Hc). repeat split.
Qed.

Lemma cycle_without_key cfg st w :
  PyStr.truthy (BETANIN_API_KEY cfg) = false →
  (cycle cfg st w).2 = after (downloads_request cfg) (after (downloads_request cfg) w)
  ∧ processed_directories (cycle cfg st w).1 = processed_directories st
  ∧ processing_failures (cycle cfg st w).1 = processing_failures st.
Proof.
  intros Hk. rewrite cycle_run. cbv zeta.
  match goal with
  | |- context [process_head cfg ?data ?cur ?st' ?w'] =>
      destruct (process_head_without_key cfg data cur st' w' Hk) as [H1 [H2 H3]]
  end.
  rewrite H1, H2, H3. repeat split.
Qed.

(** X12.  Without a betanin API key the loop never contacts betanin: after
    any number of iterations the only requests made are the two status
    requests to slskd of each iteration, the processed set and the failure
    counters are what they were. *)
Theorem no_key_no_import (cfg : config) (n : nat) (st : loop_state) (w : world) :
  PyStr.truthy (BETANIN_API_KEY cfg) = false →
  sent (iterate cfg n st w).2 = sent w ++ replicate (n * 2) (downloads_request cfg)
  ∧ processed_directories (iterate cfg n st w).1 = processed_directories st
  ∧ processing_failures (iterate cfg n st w).1 = processing_failures st.
Proof.
  intros Hk. revert st w. induction n as [|n IH]; intros st w.
  - simpl. rewrite app_nil_r. repeat split.
  - rewrite iterate_S.
    destruct (cycle_without_key cfg st w Hk) as [H1 [H2 H3]].
    destruct (IH (cycle cfg st w).1 (cycle cfg st w).2) as [I1 [I2 I3]].
    rewrite I1, I2, I3, H1, H2, H3, !sent_after, <- !app_assoc.
    repeat split.
Qed.

Lemma no_key_no_import_witness :
  PyStr.truthy (BETANIN_API_KEY cfg_no_key) = false
  ∧ sent (iterate cfg_no_key 3 one_failure (World vanish_and_return [])).2
    = replicate 6 (downloads_request cfg_no_key)
  ∧ processed_directories
      (iterate cfg_no_key 3 one_failure (World vanish_and_return [])).1
    = processed_directories one_failure.
Proof.
  assert (H : PyStr.truthy (BETANIN_API_KEY cfg_no_key) = false) by reflexivity.
  split; [exact H|].
  destruct (no_key_no_import cfg_no_key 3 one_failure
              (World vanish_and_return []) H) as [H1 [H2 _]].
  split; [exact H1|exact H2].
Defined.





Lemma iterate_failures_grow cfg n st w k c :
  processing_failures st !! k = Some c →
  ∃ c', processing_failures (iterate cfg n st w).1 !! k = Some c' ∧ c ≤ c'.
Proof.
  revert st w c. induction n as [|n IH]; intros st w c H.
  - exists c. split; [exact H|lia].
  - rewrite iterate_S.
    destruct (cycle_failures_grow cfg st w k c H) as [c1 [H1 Hle1]].
    destruct (IH _ (cycle cfg st w).2 c1 H1) as [c2 [H2 Hle2]].
    exists c2. split; [exact H2|lia].
Qed.

(** X15.  The cap is not lifted: a counter that has reached 3 stays at 3 or
    more through any number of iterations, and with such a counter a failed
    import of the head drops the head at once. *)
Theorem cap_is_permanent (cfg : config) (st : loop_state) (d : string) (c : nat) :
  processing_failures st !! d = Some c →
  3 ≤ c →
  (∀ n w, ∃ c', processing_failures (iterate cfg n st w).1 !! d = Some c' ∧ 3 ≤ c')
  ∧ (∀ data cur rest w,
       subdirectory_queue st = d :: rest →
       attempted cfg data d = true →
       (import_downloads cfg d w).1 = false →
       subdirectory_queue (process_head cfg data cur st w).1 = rest).
Proof.
  intros Hc Hle. split.
  - intros n w. destruct (iterate_failures_grow cfg n st w d c Hc) as [c' [H1 H2]].
    exists c'. split; [exact H1|lia].
  - intros data cur rest w Hq Ha Hi. apply andb_true_iff in Ha as [Hd Hk].
    rewrite (process_head_failure _ _ _ _ _ _ _ Hq Hd Hk Hi), Hc.
    cbn [fst subdirectory_queue].
    assert (E : (3 <=? S (default 0 (Some c))) = true)
      by (apply Nat.leb_le; simpl; lia).
    rewrite E. reflexivity.
Qed.

Lemma cap_is_permanent_witness :
  processing_failures (LoopState ["AlbumX"; "AlbumY"] ∅ ∅ {[ "AlbumX" := 3 ]})
    !! "AlbumX" = Some 3
  ∧ subdirectory_queue
      (process_head cfg0 albumx_done ∅
         (LoopState ["AlbumX"; "AlbumY"] ∅ ∅ {[ "AlbumX" := 3 ]}) probe_401).1
    = ["AlbumY"].
Proof.
  assert (H : processing_failures
                (LoopState ["AlbumX"; "AlbumY"] ∅ ∅ {[ "AlbumX" := 3 ]})
                !! "AlbumX" = Some 3) by (vm_compute; reflexivity).
  split; [exact H|].
  assert (Hle : 3 ≤ 3) by lia.
  exact (proj2 (cap_is_permanent cfg0 _ "AlbumX" 3 H Hle)
           albumx_done ∅ ["AlbumY"] probe_401 eq_refl eq_refl eq_refl).
Defined.
